(** * Hybrid e-mail classifier: local rules, PII redaction, remote fallback

    A shallow embedding of [backend/app/agents/classifier.py]
    (class [EmailClassifier]) and the properties its specification states.

    Conventions of the embedding.
    - A Python [str] is a [string].  The embedding is exact for texts of
      ASCII characters ([is_ascii]): there the character tests of the [re]
      module ([\s], [\d], [\w], [\b]), [str.strip], [str.lower] and slicing
      are the ones below.  Python's tests also accept digits, letters and
      spaces beyond ASCII; the embedding takes a byte above 127 (a UTF-8
      fragment of a character such as the em dash) for neither space, digit,
      word character nor cased letter.  Statements about what the patterns
      of [redact_pii] match are made for ASCII texts.
    - The client is the synchronous [OpenAI] client, as [__init__] builds
      it; [await] on what its call returns raises a [TypeError].
    - A Python [float] is a binary64 [float] of the kernel, so [0.7] below is
      the same double as the literal [0.7] of the source.
    - A dict produced by [json.loads] or built by the code is a [pyval].
    - An exception is a value of [exn]; code that can raise lives in the
      monad [M], which also records the calls made to the remote service. *)

From Stdlib Require Import String Ascii List Bool Arith ZArith Lia Floats
  Permutation.
Import ListNotations.

Set Warnings "-inexact-float,-register-all".

Open Scope string_scope.

(** ** Python string operations *)

Module PyStr.

Definition code (c : ascii) : nat := nat_of_ascii c.

Definition between (lo hi : ascii) (c : ascii) : bool :=
  Nat.leb (code lo) (code c) && Nat.leb (code c) (code hi).

Definition is_digit (c : ascii) : bool := between "0" "9" c.
Definition is_upper (c : ascii) : bool := between "A" "Z" c.
Definition is_lower (c : ascii) : bool := between "a" "z" c.
Definition is_alpha (c : ascii) : bool := is_upper c || is_lower c.

(** [\w]: letters, digits and the underscore. *)
Definition is_word (c : ascii) : bool :=
  is_alpha c || is_digit c || Ascii.eqb c "_".

(** [\s] and [str.isspace]: tab, line feed, vertical tab, form feed,
    carriage return, the four separators 0x1c-0x1f and the space. *)
Definition is_space (c : ascii) : bool :=
  let n := code c in
  (Nat.leb 9 n && Nat.leb n 13) || (Nat.leb 28 n && Nat.leb n 31)
  || Nat.eqb n 32.

(** A character of ASCII; [s.isascii()]. *)
Definition is_ascii_char (c : ascii) : bool := Nat.ltb (code c) 128.

Fixpoint is_ascii (s : string) : bool :=
  match s with
  | EmptyString => true
  | String c s' => is_ascii_char c && is_ascii s'
  end.

Definition lower_char (c : ascii) : ascii :=
  if is_upper c then ascii_of_nat (code c + 32) else c.

(** [s.lower()] *)
Fixpoint lower (s : string) : string :=
  match s with
  | EmptyString => EmptyString
  | String c s' => String (lower_char c) (lower s')
  end.

(** [needle in hay] *)
Fixpoint contains (needle hay : string) : bool :=
  if String.prefix needle hay then true
  else match hay with
       | EmptyString => false
       | String _ hay' => contains needle hay'
       end.

(** [s.startswith(p)] *)
Definition startswith (p s : string) : bool := String.prefix p s.

Fixpoint lstrip (s : string) : string :=
  match s with
  | String c s' => if is_space c then lstrip s' else s
  | EmptyString => EmptyString
  end.

Fixpoint rstrip (s : string) : string :=
  match s with
  | EmptyString => EmptyString
  | String c s' =>
      match rstrip s' with
      | EmptyString => if is_space c then EmptyString else String c EmptyString
      | t => String c t
      end
  end.

(** [s.strip()] *)
Definition strip (s : string) : string := rstrip (lstrip s).

(** [s[:n]], counted in characters of ASCII *)
Fixpoint take (n : nat) (s : string) : string :=
  match n, s with
  | S n', String c s' => String c (take n' s')
  | _, _ => EmptyString
  end.

(** [sep.join(l)] *)
Fixpoint join (sep : string) (l : list string) : string :=
  match l with
  | [] => ""
  | [x] => x
  | x :: l' => x ++ sep ++ join sep l'
  end.

(** [s.split(sep)[0]] for a non-empty [sep]: the text before the first
    occurrence of [sep], the whole of [s] when there is none. *)
Fixpoint before_first (sep s : string) : string :=
  if String.prefix sep s then ""
  else match s with
       | EmptyString => ""
       | String c s' => String c (before_first sep s')
       end.

Fixpoint drop (n : nat) (s : string) : string :=
  match n, s with
  | S n', String _ s' => drop n' s'
  | _, _ => s
  end.

(** The text after the first occurrence of [sep], if any. *)
Fixpoint after_first (sep s : string) : option string :=
  if String.prefix sep s then Some (drop (String.length sep) s)
  else match s with
       | EmptyString => None
       | String _ s' => after_first sep s'
       end.

(** [s.split(sep)[1]]: between the first and the second occurrence. *)
Definition split_second (sep s : string) : option string :=
  option_map (before_first sep) (after_first sep s).

(** [s.split(':')[-1]]: the text after the last colon. *)
Fixpoint after_last_colon (s : string) : string :=
  match s with
  | EmptyString => EmptyString
  | String c s' =>
      if contains ":" s' then after_last_colon s'
      else if Ascii.eqb c ":" then s' else s
  end.

Definition mem (x : string) (l : list string) : bool :=
  existsb (String.eqb x) l.

End PyStr.

Import PyStr.

(** ** The fragment of [re] the classifier uses

    A backtracking matcher in continuation-passing style: alternatives are
    tried left to right, repetitions are greedy, and the first way of
    matching the whole pattern wins, as in Python.  [prev] is the character
    before the current position; [\b] needs it. *)

Module Re.

Inductive regex : Type :=
| Eps
| Cls (p : ascii -> bool)
| Cat (r1 r2 : regex)
| Alt (r1 r2 : regex)
| Star (r : regex)
| WordB.

Definition at_boundary (prev : option ascii) (s : string) : bool :=
  xorb (match prev with Some c => is_word c | None => false end)
       (match s with String c _ => is_word c | EmptyString => false end).

Definition cont : Type := option ascii -> string -> option (option ascii * string).

Fixpoint rmatch (r : regex) (prev : option ascii) (s : string) (k : cont)
  {struct r} : option (option ascii * string) :=
  match r with
  | Eps => k prev s
  | Cls p =>
      match s with
      | String c s' => if p c then k (Some c) s' else None
      | EmptyString => None
      end
  | Cat r1 r2 => rmatch r1 prev s (fun p' s' => rmatch r2 p' s' k)
  | Alt r1 r2 =>
      match rmatch r1 prev s k with
      | Some x => Some x
      | None => rmatch r2 prev s k
      end
  | Star r' =>
      (fix loop (n : nat) (prev : option ascii) (s : string) {struct n} :=
         match n with
         | O => k prev s
         | S n' =>
             match rmatch r' prev s
                     (fun p' s' =>
                        if Nat.ltb (String.length s') (String.length s)
                        then loop n' p' s' else None) with
             | Some x => Some x
             | None => k prev s
             end
         end) (String.length s) prev s
  | WordB => if at_boundary prev s then k prev s else None
  end.

(** Derived forms. *)
Definition Chr (c : ascii) : regex := Cls (Ascii.eqb c).
Definition Opt (r : regex) : regex := Alt r Eps.
Definition Plus (r : regex) : regex := Cat r (Star r).

Fixpoint Lit (s : string) : regex :=
  match s with
  | EmptyString => Eps
  | String c s' => Cat (Chr c) (Lit s')
  end.

(** [r{n}] *)
Fixpoint Rep (n : nat) (r : regex) : regex :=
  match n with
  | O => Eps
  | S n' => Cat r (Rep n' r)
  end.

(** [r{0,n}], greedy *)
Fixpoint UpTo (n : nat) (r : regex) : regex :=
  match n with
  | O => Eps
  | S n' => Opt (Cat r (UpTo n' r))
  end.

(** [r{n,m}] *)
Definition RepRange (n m : nat) (r : regex) : regex :=
  Cat (Rep n r) (UpTo (m - n) r).

(** [r{n,}] *)
Definition AtLeast (n : nat) (r : regex) : regex := Cat (Rep n r) (Star r).

(** [r1|r2|...] *)
Fixpoint Alts (l : list regex) : regex :=
  match l with
  | [] => Cls (fun _ => false)
  | [r] => r
  | r :: l' => Alt r (Alts l')
  end.

Fixpoint Seq (l : list regex) : regex :=
  match l with
  | [] => Eps
  | [r] => r
  | r :: l' => Cat r (Seq l')
  end.

Definition match_at (r : regex) (prev : option ascii) (s : string)
  : option (option ascii * string) :=
  rmatch r prev s (fun p rest => Some (p, rest)).

(** [re.sub]: scan from the left; a match is replaced by [repl] and the
    scan resumes behind it, an unmatched character is copied. *)
Fixpoint sub_loop (r : regex) (repl : string) (fuel : nat)
  (prev : option ascii) (s : string) : string :=
  match fuel with
  | O => s
  | S fuel' =>
      match match_at r prev s with
      | Some (p', rest) =>
          if Nat.ltb (String.length rest) (String.length s)
          then repl ++ sub_loop r repl fuel' p' rest
          else match s with
               | EmptyString => repl
               | String c s' => repl ++ String c (sub_loop r repl fuel' (Some c) s')
               end
      | None =>
          match s with
          | EmptyString => EmptyString
          | String c s' => String c (sub_loop r repl fuel' (Some c) s')
          end
      end
  end.

Definition sub (r : regex) (repl : string) (s : string) : string :=
  sub_loop r repl (S (String.length s)) None s.

(** [re.search(r, s)] as a truth value. *)
Fixpoint search_from (r : regex) (prev : option ascii) (s : string) : bool :=
  match match_at r prev s with
  | Some _ => true
  | None =>
      match s with
      | EmptyString => false
      | String c s' => search_from r (Some c) s'
      end
  end.

Definition search (r : regex) (s : string) : bool := search_from r None s.

End Re.

Import Re.

(** ** The patterns of the source *)

Module Pat.

Definition digit : regex := Cls is_digit.
Definition space : regex := Cls is_space.
Definition one_of (cs : string) : regex :=
  Cls (fun c => contains (String c "") cs).

(** [<[^>]+>] *)
Definition html_tag : regex :=
  Seq [Chr "<"; Plus (Cls (fun c => negb (Ascii.eqb c ">"))); Chr ">"].

(** [\s+] *)
Definition whitespace_run : regex := Plus space.

(** [\b[A-Za-z0-9._%+-]+@[A-Za-z0-9.-]+\.[A-Z|a-z]{2,}\b] *)
Definition email : regex :=
  Seq [WordB;
       Plus (Cls (fun c => is_alpha c || is_digit c || contains (String c "") "._%+-"));
       Chr "@";
       Plus (Cls (fun c => is_alpha c || is_digit c || contains (String c "") ".-"));
       Chr ".";
       AtLeast 2 (Cls (fun c => is_alpha c || Ascii.eqb c "|"));
       WordB].

(** [\b\d{3}[-.]?\d{3}[-.]?\d{4}\b] *)
Definition phone_dashed : regex :=
  Seq [WordB; Rep 3 digit; Opt (one_of "-."); Rep 3 digit; Opt (one_of "-.");
       Rep 4 digit; WordB].

(** [\b\(\d{3}\)\s?\d{3}[-.]?\d{4}\b] *)
Definition phone_paren : regex :=
  Seq [WordB; Chr "("; Rep 3 digit; Chr ")"; Opt space; Rep 3 digit;
       Opt (one_of "-."); Rep 4 digit; WordB].

(** [\b\+\d{1,3}[-.\s]?\d{3,4}[-.\s]?\d{3,4}[-.\s]?\d{3,4}\b] *)
Definition phone_sep : regex :=
  Opt (Cls (fun c => contains (String c "") "-." || is_space c)).

Definition phone_intl : regex :=
  Seq [WordB; Chr "+"; RepRange 1 3 digit; phone_sep; RepRange 3 4 digit;
       phone_sep; RepRange 3 4 digit; phone_sep; RepRange 3 4 digit; WordB].

Definition phone_patterns : list regex := [phone_dashed; phone_paren; phone_intl].

Definition is_hex (c : ascii) : bool :=
  is_digit c || between "a" "f" c || between "A" "F" c.

(** [http[s]?://(?:[a-zA-Z]|[0-9]|[$-_@.&+]|[!*\\(\\),]|(?:%[0-9a-fA-F][0-9a-fA-F]))+];
    in the third class [$-_] is a range. *)
Definition url_char : regex :=
  Alts [Cls is_alpha;
        Cls is_digit;
        Cls (fun c => between "$" "_" c || contains (String c "") "@.&+");
        Cls (fun c => contains (String c "") "!*\(),");
        Seq [Chr "%"; Cls is_hex; Cls is_hex]].

Definition url : regex :=
  Seq [Lit "http"; Opt (Chr "s"); Lit "://"; Plus url_char].

(** [\b\d{4}[-\s]?\d{4}[-\s]?\d{4}[-\s]?\d{4}\b] *)
Definition card_sep : regex :=
  Opt (Cls (fun c => Ascii.eqb c "-" || is_space c)).

Definition card : regex :=
  Seq [WordB; Rep 4 digit; card_sep; Rep 4 digit; card_sep; Rep 4 digit;
       card_sep; Rep 4 digit; WordB].

(** [\b\d{3}-\d{2}-\d{4}\b] *)
Definition ssn : regex :=
  Seq [WordB; Rep 3 digit; Chr "-"; Rep 2 digit; Chr "-"; Rep 4 digit; WordB].

(** [\b(Mr|Mrs|Ms|Dr|Prof)\.?\s+[A-Z][a-z]+(?:\s+[A-Z][a-z]+)?\b] *)
Definition capitalised : regex := Cat (Cls is_upper) (Plus (Cls is_lower)).

Definition name : regex :=
  Seq [WordB; Alts (map Lit ["Mr"; "Mrs"; "Ms"; "Dr"; "Prof"]); Opt (Chr ".");
       Plus space; capitalised; Opt (Cat (Plus space) capitalised); WordB].

(** [\b\d+\s+[A-Za-z\s]+(?:Street|St|Avenue|Ave|Road|Rd|Boulevard|Blvd|Drive|Dr|Lane|Ln)\b] *)
Definition address : regex :=
  Seq [WordB; Plus digit; Plus space;
       Plus (Cls (fun c => is_alpha c || is_space c));
       Alts (map Lit ["Street"; "St"; "Avenue"; "Ave"; "Road"; "Rd";
                      "Boulevard"; "Blvd"; "Drive"; "Dr"; "Lane"; "Ln"]);
       WordB].

(** The time references of [extract_keywords]. *)
Definition time_patterns : list regex :=
  [ Seq [WordB; Alts (map Lit ["today"; "tomorrow"; "yesterday"]); WordB];
    Seq [WordB; Alts (map Lit ["monday"; "tuesday"; "wednesday"; "thursday";
                               "friday"; "saturday"; "sunday"]); WordB];
    Seq [WordB; Alts (map Lit ["january"; "february"; "march"; "april"; "may";
                               "june"; "july"; "august"; "september";
                               "october"; "november"; "december"]); WordB];
    Seq [WordB; RepRange 1 2 digit; Chr ":"; Rep 2 digit; Opt space;
         Opt (Alts (map Lit ["am"; "pm"])); WordB];
    Seq [WordB; RepRange 1 2 digit; Chr "/"; RepRange 1 2 digit; Chr "/";
         RepRange 2 4 digit; WordB] ].

End Pat.

(** ** [redact_pii] *)

(** The argument is [None] for an absent ([None]) text. *)
Definition redact_pii (text : option string) : string :=
  match text with
  | None => ""
  | Some "" => ""
  | Some text =>
      let text := Re.sub Pat.email "[EMAIL]" text in
      let text := fold_left (fun text pattern => Re.sub pattern "[PHONE]" text)
                            Pat.phone_patterns text in
      let text := Re.sub Pat.url "[URL]" text in
      let text := Re.sub Pat.card "[CARD]" text in
      let text := Re.sub Pat.ssn "[SSN]" text in
      let text := Re.sub Pat.name "[NAME]" text in
      let text := Re.sub Pat.address "[ADDRESS]" text in
      text
  end.

(** ** [extract_keywords] *)

Definition urgency_keywords : list string :=
  ["urgent"; "asap"; "immediate"; "emergency"; "critical"; "deadline";
   "rush"; "priority"; "time-sensitive"; "expedite"].

Definition financial_keywords : list string :=
  ["invoice"; "payment"; "bill"; "receipt"; "refund"; "transaction";
   "purchase"; "order"; "subscription"; "charge"; "fee"; "cost";
   "price"; "amount"; "total"; "balance"; "account"].

Definition meeting_keywords : list string :=
  ["meeting"; "call"; "appointment"; "schedule"; "calendar";
   "conference"; "zoom"; "teams"; "webinar"; "discussion"].

Definition work_keywords : list string :=
  ["project"; "task"; "deliverable"; "milestone"; "report";
   "presentation"; "document"; "proposal"; "contract"; "agreement"].

Definition personal_keywords : list string :=
  ["family"; "friend"; "personal"; "vacation"; "holiday";
   "birthday"; "anniversary"; "celebration"; "party"].

Definition support_keywords : list string :=
  ["support"; "help"; "issue"; "problem"; "error"; "bug";
   "ticket"; "question"; "inquiry"; "assistance"].

Definition all_keywords : list (string * list string) :=
  [("urgency", urgency_keywords); ("financial", financial_keywords);
   ("meeting", meeting_keywords); ("work", work_keywords);
   ("personal", personal_keywords); ("support", support_keywords)].

Definition action_words : list string :=
  ["review"; "approve"; "submit"; "send"; "update"; "complete";
   "schedule"; "confirm"; "cancel"; "reschedule"; "follow-up";
   "discuss"; "decide"; "implement"; "prepare"; "deliver"].

Definition question_words : list string :=
  ["what"; "when"; "where"; "who"; "why"; "how"].

(** [list(set(l))]: the elements of [l] without repetition.  Python leaves
    the order open (it varies with the hash seed of the run); the embedding
    takes the order of first occurrence, one of the orders Python can give.
    Only the ten keywords that go into the prompt depend on it. *)
Definition list_of_set (l : list string) : list string := nodup string_dec l.

(** The keywords appended by the two loops and the two detectors, before
    duplicates are removed. *)
Definition found_keywords (text text_lower : string) : list string :=
  let found :=
    flat_map (fun '(category, keywords) =>
                map (fun keyword => category ++ ":" ++ keyword)
                    (filter (fun keyword => contains keyword text_lower) keywords))
             all_keywords in
  let found :=
    List.app found
             (map (fun action => "action:" ++ action)
                  (filter (fun action => contains action text_lower) action_words)) in
  let found :=
    if contains "?" text || existsb (fun q => contains q text_lower) question_words
    then (found ++ ["type:question"])%list else found in
  if existsb (fun pattern => Re.search pattern text_lower) Pat.time_patterns
  then (found ++ ["has_time_reference"])%list else found.

Definition extract_keywords (text : string) : list string :=
  match text with
  | "" => []
  | _ =>
      let text := Re.sub Pat.html_tag "" text in
      let text := strip (Re.sub Pat.whitespace_run " " text) in
      let text_lower := lower text in
      list_of_set (found_keywords text text_lower)
  end.

(** ** [classify_locally] *)

Record classification : Type := Classification
  { category : string;
    priority : string;
    confidence : float;
    reasoning : string }.

(** [[kw.split(':')[-1] if ':' in kw else kw for kw in keywords]] *)
Definition keyword_strings (keywords : list string) : list string :=
  map (fun kw => if contains ":" kw then after_last_colon kw else kw) keywords.

(** [keyword_set.intersection(indicators)], listed without repetition: the
    indicator sets are displays of distinct literals. *)
Definition intersection (keyword_set indicators : list string) : list string :=
  filter (fun term => mem term keyword_set) indicators.

Definition nonempty {A : Type} (l : list A) : bool :=
  match l with [] => false | _ :: _ => true end.

Definition spam_indicators : list string :=
  ["urgent"; "limited time"; "act now"; "free"; "winner"; "congratulations";
   "claim"; "prize"; "offer"; "discount"; "sale"; "deal"].

Definition financial_indicators : list string :=
  ["invoice"; "payment"; "bill"; "receipt"; "transaction"; "refund"].

Definition meeting_indicators : list string :=
  ["meeting"; "call"; "appointment"; "schedule"; "calendar"; "conference"].

Definition support_indicators : list string :=
  ["support"; "help"; "issue"; "problem"; "error"; "bug"; "ticket"].

Definition work_indicators : list string :=
  ["project"; "task"; "deliverable"; "milestone"; "report"; "proposal"].

Definition personal_indicators : list string :=
  ["family"; "friend"; "personal"; "vacation"; "birthday"; "party"].

Definition classify_locally (keywords : list string) (sender subject : string)
  : option classification :=
  match keywords with
  | [] => None
  | _ :: _ =>
  let keyword_set := keyword_strings keywords in
  (* 1. Spam/Promotional detection *)
  if Nat.leb 2 (List.length (intersection keyword_set spam_indicators)) then
    Some (Classification "spam" "low" 0.9 "Multiple spam indicators detected")
  (* 2. Financial/Billing emails *)
  else if nonempty (intersection keyword_set financial_indicators) then
    let priority := if mem "urgent" keyword_set then "high" else "medium" in
    Some (Classification "financial" priority 0.85 "Financial keywords detected")
  (* 3. Meeting/Calendar emails *)
  else if nonempty (intersection keyword_set meeting_indicators) then
    let priority :=
      if existsb (fun kw => mem kw keywords) ["urgency:"; "has_time_reference"]
      then "high" else "medium" in
    Some (Classification "meetings" priority 0.8 "Meeting/calendar keywords detected")
  (* 4. Support/Technical emails *)
  else if nonempty (intersection keyword_set support_indicators) then
    let priority := if mem "urgent" keyword_set then "high" else "medium" in
    Some (Classification "support" priority 0.8 "Support/technical keywords detected")
  (* 5. Work/Project emails *)
  else if nonempty (intersection keyword_set work_indicators) then
    let priority :=
      if mem "urgency:"
             (map (before_first ":") (filter (contains ":") keywords))
      then "high" else "medium" in
    Some (Classification "work" priority 0.75 "Work/project keywords detected")
  (* 6. Personal emails *)
  else if nonempty (intersection keyword_set personal_indicators) then
    Some (Classification "personal" "low" 0.7 "Personal keywords detected")
  (* 7. Sender-based rules *)
  else
  let sender_lower := lower sender in
  if existsb (fun service => contains service sender_lower)
             ["noreply"; "no-reply"; "notification"; "support"] then
    if nonempty (intersection keyword_set financial_indicators) then
      Some (Classification "financial" "medium" 0.8
              "Service notification with financial content")
    else
      Some (Classification "notifications" "low" 0.75
              "Automated service notification")
  (* 8. Subject-based high-confidence rules *)
  else
  let subject_lower := lower subject in
  if existsb (fun word => contains word subject_lower)
             ["unsubscribe"; "newsletter"; "promotion"] then
    Some (Classification "promotional" "low" 0.85 "Promotional content in subject")
  else if existsb (fun word => contains word subject_lower)
                  ["urgent"; "asap"; "immediate"] then
    Some (Classification "urgent" "high" 0.8 "Urgent markers in subject")
  (* 9. Action-required emails *)
  else
  let action_keywords := filter (startswith "action:") keywords in
  if Nat.leb 2 (List.length action_keywords) || mem "type:question" keywords then
    Some (Classification "action_required" "medium" 0.75
            "Multiple action items or questions detected")
  else None
  end.

(** ** Python values, exceptions and the effects of a call *)

(** What [json.loads] can return, and the dicts the classifier builds.  A
    dict lists each key once, in the order of insertion. *)
Inductive pyval : Type :=
| PNone
| PBool (b : bool)
| PInt (z : Z)
| PFloat (f : float)
| PStr (s : string)
| PList (l : list pyval)
| PDict (d : list (string * pyval)).

Inductive exn_class : Type :=
| JSONDecodeError | ValueError | TypeError | AttributeError
| IndexError | KeyError | OverflowError | ServiceError.

(** An exception: its class and [str(e)]. *)
Record exn : Type := Exn { exn_class_of : exn_class; exn_message : string }.

Inductive outcome (A : Type) : Type :=
| Ok (a : A)
| Raise (e : exn).
Arguments Ok {A} a.
Arguments Raise {A} e.

Definition obind {A B : Type} (c : outcome A) (k : A -> outcome B) : outcome B :=
  match c with
  | Ok a => k a
  | Raise e => Raise e
  end.

(** The marks a run leaves in the log: [classify_with_openai] was entered
    with these arguments, the service was sent this prompt, the body of
    [if local_result:] in step 4 of [classify_email] was entered. *)
Inductive event : Type :=
| RemoteCall (redacted_content : string) (keywords : list string)
| ServiceRequest (prompt : string)
| MergeBranch.

(** Computations that may raise and that append to the log of events. *)
Definition M (A : Type) : Type := list event -> outcome A * list event.

Definition ret {A : Type} (a : A) : M A := fun log => (Ok a, log).

Definition bind {A B : Type} (c : M A) (k : A -> M B) : M B :=
  fun log =>
    match c log with
    | (Ok a, log') => k a log'
    | (Raise e, log') => (Raise e, log')
    end.

Definition lift {A : Type} (c : outcome A) : M A := fun log => (c, log).

Definition emit (e : event) : M unit := fun log => (Ok tt, (log ++ [e])%list).

(** [try: c except <classes accepted by catches> as e: handler e] *)
Definition try_except {A : Type} (c : M A) (catches : exn -> bool)
  (handler : exn -> M A) : M A :=
  fun log =>
    match c log with
    | (Raise e, log') => if catches e then handler e log' else (Raise e, log')
    | r => r
    end.

Notation "x <- c ;; k" := (bind c (fun x => k))
  (at level 61, c at next level, right associativity).
Notation "c ;;; k" := (bind c (fun _ => k))
  (at level 61, right associativity).

(** *** Dict and item operations *)

Fixpoint dict_get (d : list (string * pyval)) (key : string) : option pyval :=
  match d with
  | [] => None
  | (k, v) :: d' => if String.eqb k key then Some v else dict_get d' key
  end.

Fixpoint dict_set (d : list (string * pyval)) (key : string) (v : pyval)
  : list (string * pyval) :=
  match d with
  | [] => [(key, v)]
  | (k, v') :: d' =>
      if String.eqb k key then (k, v) :: d' else (k, v') :: dict_set d' key v
  end.

(** [o[key]] for a string key *)
Definition py_getitem (o : pyval) (key : string) : outcome pyval :=
  match o with
  | PDict d =>
      match dict_get d key with
      | Some v => Ok v
      | None => Raise (Exn KeyError ("'" ++ key ++ "'"))
      end
  | PList _ => Raise (Exn TypeError "list indices must be integers or slices, not str")
  | PStr _ => Raise (Exn TypeError "string indices must be integers, not 'str'")
  | _ => Raise (Exn TypeError "object is not subscriptable")
  end.

(** [o[key] = v] *)
Definition py_setitem (o : pyval) (key : string) (v : pyval) : outcome pyval :=
  match o with
  | PDict d => Ok (PDict (dict_set d key v))
  | PList _ => Raise (Exn TypeError "list indices must be integers or slices, not str")
  | PStr _ => Raise (Exn TypeError "'str' object does not support item assignment")
  | _ => Raise (Exn TypeError "object does not support item assignment")
  end.

(** [v == s] for a string [s] *)
Definition py_eq_str (v : pyval) (s : string) : bool :=
  match v with
  | PStr t => String.eqb t s
  | _ => false
  end.

(** [field in o] *)
Definition py_contains (o : pyval) (field : string) : outcome bool :=
  match o with
  | PDict d => Ok (existsb (fun kv => String.eqb (fst kv) field) d)
  | PList l => Ok (existsb (fun v => py_eq_str v field) l)
  | PStr s => Ok (contains field s)
  | PNone => Raise (Exn TypeError "argument of type 'NoneType' is not iterable")
  | PBool _ => Raise (Exn TypeError "argument of type 'bool' is not iterable")
  | PInt _ => Raise (Exn TypeError "argument of type 'int' is not iterable")
  | PFloat _ => Raise (Exn TypeError "argument of type 'float' is not iterable")
  end.

(** [all(field in o for field in fields)] *)
Fixpoint all_fields_in (o : pyval) (fields : list string) : outcome bool :=
  match fields with
  | [] => Ok true
  | field :: fields' =>
      obind (py_contains o field)
            (fun present => if present then all_fields_in o fields' else Ok false)
  end.

(** [float(z)] *)
Definition float_of_Z (z : Z) : outcome float :=
  let f := SF2Prim (binary_normalize prec emax z 0 false) in
  if PrimFloat.is_infinity f
  then Raise (Exn OverflowError "int too large to convert to float")
  else Ok f.

(** [o + x] for a float [x] *)
Definition py_add_float (o : pyval) (x : float) : outcome float :=
  match o with
  | PFloat f => Ok (f + x)%float
  | PInt z => obind (float_of_Z z) (fun f => Ok (f + x)%float)
  | PBool b => Ok ((if b then 1 else 0) + x)%float
  | _ => Raise (Exn TypeError "unsupported operand type(s) for +")
  end.

(** [min(a, b)]: [b] when [b < a], else [a] *)
Definition py_min (a b : float) : float := if PrimFloat.ltb b a then b else a.

Fixpoint chars (s : string) : list pyval :=
  match s with
  | EmptyString => []
  | String c s' => PStr (String c "") :: chars s'
  end.

(** [o += t] for a string [t] *)
Definition py_iadd_str (o : pyval) (t : string) : outcome pyval :=
  match o with
  | PStr s => Ok (PStr (s ++ t))
  | PList l => Ok (PList (l ++ chars t))
  | _ => Raise (Exn TypeError "unsupported operand type(s) for +=")
  end.

(** ** [classify_with_openai] and [classify_email] *)

Definition dq : string := String (ascii_of_nat 34) "".

Definition prompt_head : string :=
  "
            Classify this email based on the following criteria:

            Email Content (PII removed): ".

Definition prompt_middle : string :=
  "
            Extracted Keywords: ".

Definition prompt_tail : string :=
  "

            Please classify this email into one of these categories:
            - work: Professional/business communications
            - personal: Personal communications from friends/family
            - financial: Bills, invoices, payments, banking
            - promotional: Marketing, advertisements, newsletters
            - support: Customer service, technical support
            - meetings: Calendar invites, meeting requests
            - notifications: Automated system notifications
            - action_required: Emails requiring immediate response/action
            - spam: Unwanted or suspicious emails
            - other: Doesn't fit other categories

            Priority levels:
            - high: Requires immediate attention
            - medium: Important but not urgent
            - low: Can be handled later

            Respond in this exact JSON format:
            {
                " ++ dq ++ "category" ++ dq ++ ": " ++ dq ++ "category_name" ++ dq ++ ",
                " ++ dq ++ "priority" ++ dq ++ ": " ++ dq ++ "priority_level" ++ dq ++ ",
                " ++ dq ++ "confidence" ++ dq ++ ": 0.0-1.0,
                " ++ dq ++ "reasoning" ++ dq ++ ": " ++ dq ++ "brief explanation" ++ dq ++ "
            }
            ".

(** The f-string of [classify_with_openai]. *)
Definition build_prompt (redacted_content : string) (keywords : list string)
  : string :=
  let keyword_summary := join ", " (firstn 10 keywords) in
  prompt_head ++ take 1000 redacted_content ++ prompt_middle
  ++ keyword_summary ++ prompt_tail.

Definition fence : string := "```".
Definition json_fence : string := "```json".

(** [response_text.split(mark)[1].split("```")[0]] *)
Definition between_fences (mark response_text : string) : outcome string :=
  match split_second mark response_text with
  | Some inner => Ok (before_first fence inner)
  | None => Raise (Exn IndexError "list index out of range")
  end.

Definition strip_code_fence (response_text : string) : outcome string :=
  if contains json_fence response_text then between_fences json_fence response_text
  else if contains fence response_text then between_fences fence response_text
  else Ok response_text.

Definition required_fields : list string :=
  ["category"; "priority"; "confidence"; "reasoning"].

Definition fallback (conf : float) (reason : string) : pyval :=
  PDict [("category", PStr "other"); ("priority", PStr "medium");
         ("confidence", PFloat conf); ("reasoning", PStr reason)].

(** [except (json.JSONDecodeError, ValueError)] *)
Definition is_parse_error (e : exn) : bool :=
  match exn_class_of e with
  | JSONDecodeError | ValueError => true
  | _ => false
  end.

(** [except Exception] *)
Definition is_exception (e : exn) : bool := true.

Record email_data : Type := Email
  { subject : option string;
    body : option string;
    sender : option string }.

(** [d.get(key, '')] *)
Definition get_or_empty (field : option string) : string :=
  match field with
  | Some s => s
  | None => ""
  end.

Definition dict_of_classification (r : classification) : list (string * pyval) :=
  [("category", PStr (category r)); ("priority", PStr (priority r));
   ("confidence", PFloat (confidence r)); ("reasoning", PStr (reasoning r))].

(** The local result after [local_result['method'] = 'local_rules'] and
    [local_result['privacy_protected'] = True]. *)
Definition tag_local (r : classification) : pyval :=
  PDict (dict_set (dict_set (dict_of_classification r)
                            "method" (PStr "local_rules"))
                  "privacy_protected" (PBool true)).

(** Step 4 of [classify_email], the body of [if local_result:]. *)
Definition merge_local (local_result : classification) (openai_result : pyval)
  : outcome pyval :=
  obind (py_getitem openai_result "category") (fun remote_category =>
  if py_eq_str remote_category (category local_result) then
    obind (py_getitem openai_result "confidence") (fun c =>
    obind (py_add_float c 0.1) (fun boosted =>
    obind (py_setitem openai_result "confidence" (PFloat (py_min 1.0 boosted)))
          (fun openai_result =>
    obind (py_getitem openai_result "reasoning") (fun old =>
    obind (py_iadd_str old " (confirmed by local rules)") (fun new =>
    py_setitem openai_result "reasoning" new)))))
  else Ok openai_result).

(** [await v] for a value [v] that is no awaitable, of the class named
    [class_name]: the [TypeError] of the interpreter. *)
Definition not_awaitable (class_name : string) : exn :=
  Exn TypeError ("object " ++ class_name ++ " can't be used in 'await' expression").

Definition py_await {A : Type} (class_name : string) (v : A) : outcome A :=
  Raise (not_awaitable class_name).

Section Classifier.

(** The call [self.openai_client.chat.completions.create(...)], by the
    prompt it is sent.  The client is the synchronous [OpenAI] of
    [__init__], so the call itself performs the request: it raises, or
    returns a [ChatCompletion], given here by the [message.content] of each
    choice. *)
Variable chat_create : string -> outcome (list (option string)).

(** [json.loads] *)
Variable json_loads : string -> outcome pyval.

(** The inner [try] block. *)
Definition parse_response (response_text : string) : outcome pyval :=
  obind (strip_code_fence response_text) (fun response_text =>
  obind (json_loads response_text) (fun result =>
  obind (all_fields_in result required_fields) (fun complete =>
  if complete then Ok result
  else Raise (Exn ValueError "Missing required fields in OpenAI response")))).

(** [response.choices[0].message.content.strip()] *)
Definition response_content (choices : list (option string)) : outcome string :=
  match choices with
  | [] => Raise (Exn IndexError "list index out of range")
  | None :: _ =>
      Raise (Exn AttributeError "'NoneType' object has no attribute 'strip'")
  | Some content :: _ => Ok (strip content)
  end.

Definition classify_with_openai (redacted_content : string)
  (keywords : list string) : M pyval :=
  emit (RemoteCall redacted_content keywords) ;;;
  try_except
    (let prompt := build_prompt redacted_content keywords in
     emit (ServiceRequest prompt) ;;;
     completion <- lift (chat_create prompt) ;;
     response <- lift (py_await "ChatCompletion" completion) ;;
     response_text <- lift (response_content response) ;;
     try_except
       (lift (parse_response response_text))
       is_parse_error
       (fun e => ret (fallback 0.3
                        ("OpenAI response parsing failed: " ++ exn_message e))))
    is_exception
    (fun e => ret (fallback 0.2
                     ("OpenAI classification failed: " ++ exn_message e))).

(** Steps 3 and 4 of [classify_email]. *)
Definition escalate (full_content : string) (keywords : list string)
  (local_result : option classification) : M pyval :=
  let redacted_content := redact_pii (Some full_content) in
  openai_result <- classify_with_openai redacted_content keywords ;;
  openai_result <- lift (py_setitem openai_result "method" (PStr "openai_api")) ;;
  openai_result <- lift (py_setitem openai_result "privacy_protected" (PBool true)) ;;
  match local_result with
  | Some local_result =>
      emit MergeBranch ;;; lift (merge_local local_result openai_result)
  | None => ret openai_result
  end.

Definition classify_email (email : email_data) : M pyval :=
  let subject := get_or_empty (subject email) in
  let body := get_or_empty (body email) in
  let sender := get_or_empty (sender email) in
  let full_content := subject ++ " " ++ body in
  let keywords := extract_keywords full_content in
  let local_result := classify_locally keywords sender subject in
  match local_result with
  | Some r =>
      if PrimFloat.leb 0.7 (confidence r) then ret (tag_local r)
      else escalate full_content keywords local_result
  | None => escalate full_content keywords local_result
  end.

End Classifier.

(** ** [parse_gmail_message] ([backend/app/api/v1/emails.py])

    A message of the Gmail API: its payload is a tree of parts.  [headers]
    is the list behind the key [headers] as pairs of [name] and [value]
    (empty when the key is absent), [mime_type] the value behind [mimeType],
    [body_data] the value of [payload.get('body', {}).get('data')], [parts]
    the list behind [parts] (empty when absent). *)

Inductive payload : Type :=
| Payload (headers : list (string * string)) (mime_type : option string)
          (body_data : option string) (parts : list payload).

Record parsed_message : Type := ParsedMessage
  { parsed_subject : string;
    sender_email : string;
    sender_name : string;
    recipient_email : string;
    body_plain : string;
    body_html : string }.

(** [{h['name']: h['value'] for h in headers}]: a later header replaces an
    earlier one of the same name. *)
Fixpoint set_header (d : list (string * string)) (name value : string)
  : list (string * string) :=
  match d with
  | [] => [(name, value)]
  | (k, v) :: d' =>
      if String.eqb k name then (k, value) :: d' else (k, v) :: set_header d' name value
  end.

Definition headers_dict (headers : list (string * string)) : list (string * string) :=
  fold_left (fun d h => set_header d (fst h) (snd h)) headers [].

(** [headers.get(name, '')] *)
Fixpoint header_get (d : list (string * string)) (name : string) : string :=
  match d with
  | [] => ""
  | (k, v) :: d' => if String.eqb k name then v else header_get d' name
  end.

(** [s.strip(chars)] for the characters that satisfy [p] *)
Fixpoint lstrip_with (p : ascii -> bool) (s : string) : string :=
  match s with
  | String c s' => if p c then lstrip_with p s' else s
  | EmptyString => EmptyString
  end.

Fixpoint rstrip_with (p : ascii -> bool) (s : string) : string :=
  match s with
  | EmptyString => EmptyString
  | String c s' =>
      match rstrip_with p s' with
      | EmptyString => if p c then EmptyString else String c EmptyString
      | t => String c t
      end
  end.

Definition quote_char : ascii := ascii_of_nat 34.

(** [s.strip(chars)] where [chars] is the double quote *)
Definition strip_quotes (s : string) : string :=
  rstrip_with (Ascii.eqb quote_char) (lstrip_with (Ascii.eqb quote_char) s).

(** The name and the address in the value of the [From] header. *)
Definition parse_sender (sender : string) : string * string :=
  if contains "<" sender && contains ">" sender then
    (strip_quotes (strip (before_first "<" sender)),
     match split_second "<" sender with
     | Some inner => strip (before_first ">" inner)
     | None => sender
     end)
  else (sender, sender).

(** A value that is present and not empty. *)
Definition truthy (data : option string) : option string :=
  match data with
  | Some "" | None => None
  | Some d => Some d
  end.

Section Gmail.

(** [base64.urlsafe_b64decode(data).decode('utf-8')] *)
Variable decode : string -> outcome string.

(** The inner function [extract_body]; its two [nonlocal] variables are the
    pair of the plain and the HTML body. *)
Fixpoint extract_body (part : payload) (bodies : string * string) {struct part}
  : outcome (string * string) :=
  match part with
  | Payload _ mime_type body_data parts =>
      obind
        (match truthy body_data with
         | Some data =>
             if match mime_type with
                | Some m => String.eqb m "text/plain"
                | None => false
                end
             then obind (decode data) (fun text => Ok (text, snd bodies))
             else if match mime_type with
                     | Some m => String.eqb m "text/html"
                     | None => false
                     end
             then obind (decode data) (fun text => Ok (fst bodies, text))
             else Ok bodies
         | None => Ok bodies
         end)
        (fun bodies =>
           (fix visit (parts : list payload) (bodies : string * string)
              {struct parts} : outcome (string * string) :=
              match parts with
              | [] => Ok bodies
              | part :: parts' =>
                  obind (extract_body part bodies) (visit parts')
              end) parts bodies)
  end.

(** The argument is the value behind [message['payload']], [None] when the
    key is absent. *)
Definition parse_gmail_message (message_payload : option payload)
  : outcome parsed_message :=
  match message_payload with
  | None => Raise (Exn KeyError "'payload'")
  | Some (Payload headers _ _ _ as top) =>
      let headers := headers_dict headers in
      let subject := header_get headers "Subject" in
      let sender := header_get headers "From" in
      let recipient := header_get headers "To" in
      let '(sender_name, sender_email) := parse_sender sender in
      obind (extract_body top ("", ""))
            (fun bodies =>
               Ok (ParsedMessage subject sender_email sender_name recipient
                                 (fst bodies) (snd bodies)))
  end.

End Gmail.

(** * Vocabulary of the statements

    Names for what the statements below talk about, and the sample inputs
    of the examples. *)

(** ** Local rule engine *)

(** The five literal confidences. *)
Definition local_confidences : list float := [0.9; 0.85; 0.8; 0.75; 0.7]%float.

Definition invoice_keywords : list string :=
  ["urgency:urgent"; "financial:invoice"].

(** A keyword of the form [urgency:<term>]. *)
Definition urgency_tagged (kw : string) : bool := startswith "urgency:" kw.

Definition timed_meeting_keywords : list string :=
  ["meeting:meeting"; "has_time_reference"].

(** ** Remote adapter *)

(** What reaches the outer handler of the adapter: the exception of the
    service call or, when the call returned a completion, the [TypeError]
    of the [await] on it. *)
Definition call_failure (chat_create : string -> outcome (list (option string)))
  (redacted_content : string) (keywords : list string) : exn :=
  match chat_create (build_prompt redacted_content keywords) with
  | Raise e => e
  | Ok _ => not_awaitable "ChatCompletion"
  end.

(** The fallback of a failed call after the two tags of [classify_email]. *)
Definition tagged_fallback (cause : string) : pyval :=
  PDict [("category", PStr "other"); ("priority", PStr "medium");
         ("confidence", PFloat 0.2);
         ("reasoning", PStr ("OpenAI classification failed: " ++ cause));
         ("method", PStr "openai_api");
         ("privacy_protected", PBool true)].

(** A reply with the four fields and a category of the model's own. *)
Definition newsletter_reply : string :=
  "{" ++ dq ++ "category" ++ dq ++ ": " ++ dq ++ "newsletter" ++ dq ++ ", "
  ++ dq ++ "priority" ++ dq ++ ": " ++ dq ++ "low" ++ dq ++ ", "
  ++ dq ++ "confidence" ++ dq ++ ": 0.9, "
  ++ dq ++ "reasoning" ++ dq ++ ": " ++ dq ++ "bulk mail" ++ dq ++ "}".

(** A service call that returns a completion with this reply. *)
Definition newsletter_service (prompt : string) : outcome (list (option string)) :=
  Ok [Some newsletter_reply].

(** [json.loads] on the texts used in the examples below. *)
Definition sample_json_loads (text : string) : outcome pyval :=
  if String.eqb text "null" then Ok PNone
  else if String.eqb text newsletter_reply then
    Ok (PDict [("category", PStr "newsletter"); ("priority", PStr "low");
               ("confidence", PFloat 0.9); ("reasoning", PStr "bulk mail")])
  else Raise (Exn JSONDecodeError "Expecting value: line 1 column 1 (char 0)").

(** ** Orchestrator *)

Definition subject_of (email : email_data) : string := get_or_empty (subject email).
Definition body_of (email : email_data) : string := get_or_empty (body email).
Definition sender_of (email : email_data) : string := get_or_empty (sender email).

(** [f"{subject} {body}"] *)
Definition full_content_of (email : email_data) : string :=
  subject_of email ++ " " ++ body_of email.

(** What [classify_locally] answers inside [classify_email]. *)
Definition local_result_of (email : email_data) : option classification :=
  classify_locally (extract_keywords (full_content_of email))
                   (sender_of email) (subject_of email).

(** The ten categories of the specification. *)
Definition category_domain : list string :=
  ["work"; "personal"; "financial"; "promotional"; "support"; "meetings";
   "notifications"; "action_required"; "spam"; "other"].

(** A service that cannot be reached. *)
Definition unreachable_service (prompt : string) : outcome (list (option string)) :=
  Raise (Exn ServiceError "Connection error.").


Definition plain_email : email_data :=
  Email (Some "Hello") (Some "Thanks for the lift.") (Some "bob@example.com").

Definition invoice_email : email_data :=
  Email (Some "Urgent: Invoice Payment Required")
        (Some "Your invoice #12345 for $150.00 is overdue. Please pay immediately.")
        (Some "billing@company.com").

(** ** Matcher and redactor *)

(** A match ends at a suffix of the text it starts from. *)
Definition is_suffix (t s : string) : Prop := exists u : string, s = u ++ t.

(** [re.sub] cuts its input into characters that are kept and matches that
    are hit; the output has the replacement in the place of every hit. *)
Inductive piece : Type :=
| Kept (c : ascii)
| Hit (matched : string).

Fixpoint original (ps : list piece) : string :=
  match ps with
  | [] => ""
  | Kept c :: ps' => String c (original ps')
  | Hit matched :: ps' => matched ++ original ps'
  end.

Fixpoint replaced (repl : string) (ps : list piece) : string :=
  match ps with
  | [] => ""
  | Kept c :: ps' => String c (replaced repl ps')
  | Hit _ :: ps' => repl ++ replaced repl ps'
  end.

(** Every hit is a match of [r] at its place in the input. *)
Fixpoint hits_match (r : regex) (prev : option ascii) (ps : list piece) : Prop :=
  match ps with
  | [] => True
  | Kept c :: ps' => hits_match r (Some c) ps'
  | Hit matched :: ps' =>
      exists p', Re.match_at r prev (matched ++ original ps') = Some (p', original ps')
                 /\ hits_match r p' ps'
  end.

(** The sequence of substitutions as the specification lists it: e-mail,
    the three phone forms, URL, card, SSN, honorific and name, street
    address, each with its token. *)
Definition spec_redaction_steps : list (regex * string) :=
  [(Pat.email, "[EMAIL]");
   (Pat.phone_dashed, "[PHONE]");
   (Pat.phone_paren, "[PHONE]");
   (Pat.phone_intl, "[PHONE]");
   (Pat.url, "[URL]");
   (Pat.card, "[CARD]");
   (Pat.ssn, "[SSN]");
   (Pat.name, "[NAME]");
   (Pat.address, "[ADDRESS]")].

Definition redact_in_sequence (text : string) : string :=
  fold_left (fun text step => Re.sub (fst step) (snd step) text)
            spec_redaction_steps text.

Definition tokens : list string :=
  ["[EMAIL]"; "[PHONE]"; "[URL]"; "[CARD]"; "[SSN]"; "[NAME]"; "[ADDRESS]"].

(** No pattern of the sequence still matches in [s]. *)
Definition no_residue (s : string) : bool :=
  forallb (fun step => negb (Re.search (fst step) s)) spec_redaction_steps.

(** ** Spam rule *)

(** The subject of the scenario of the specification. *)
Definition offer_subject : string :=
  "50% off — limited time offer, unsubscribe now".

(** [f"{subject} {body}"] for the subject above and an empty body. *)
Definition offer_text : string := offer_subject ++ " " ++ "".

Definition spam_result : classification :=
  Classification "spam" "low" 0.9 "Multiple spam indicators detected".

(** The number of spam indicators among the terms of a keyword list. *)
Definition spam_hits (keywords : list string) : nat :=
  List.length (intersection (keyword_strings keywords) spam_indicators).

(** Every keyword [extract_keywords] can emit. *)
Definition vocabulary : list string :=
  List.app
    (flat_map (fun '(category, keywords) =>
                 map (fun keyword => category ++ ":" ++ keyword) keywords)
              all_keywords)
    (List.app (map (fun action => "action:" ++ action) action_words)
              ["type:question"; "has_time_reference"]).

(** ** Further vocabulary: local rule engine *)

(** The three priorities. *)
Definition priorities : list string := ["high"; "medium"; "low"].

(** The categories of the six keyword rules. *)
Definition keyword_rule_categories : list string :=
  ["spam"; "financial"; "meetings"; "support"; "work"; "personal"].

(** The text in which [extract_keywords] looks for its terms: tags
    removed, whitespace collapsed and stripped, lowercased. *)
Definition normalised_lower (text : string) : string :=
  lower (strip (Re.sub Pat.whitespace_run " " (Re.sub Pat.html_tag "" text))).

(** ** Further vocabulary: sample e-mails *)

Definition meeting_email : email_data :=
  Email (Some "Team meeting") (Some "Let us meet tomorrow at 10:30.")
        (Some "alice@example.com").

(** ** Further vocabulary: sample replies *)

(** A service call that returns a completion whose reply is no JSON. *)
Definition garbled_service (prompt : string) : outcome (list (option string)) :=
  Ok [Some "I think this is a work email."].

(** ** Further vocabulary: orchestrator *)

(** The [method] tag a result gets, by the presence of a local result. *)
Definition method_of (email : email_data) : string :=
  match local_result_of email with
  | Some _ => "local_rules"
  | None => "openai_api"
  end.

(** The log of a call that takes the remote path. *)
Definition remote_path_log (email : email_data) : list event :=
  let redacted_content := redact_pii (Some (full_content_of email)) in
  let keywords := extract_keywords (full_content_of email) in
  [RemoteCall redacted_content keywords;
   ServiceRequest (build_prompt redacted_content keywords)].

(** The longest prompt: the three fixed parts, 1000 characters of text and
    ten keywords of at most 22 characters with their separators. *)
Definition prompt_limit : nat :=
  String.length prompt_head + 1000 + String.length prompt_middle
  + 10 * (22 + 2) + String.length prompt_tail.

(** ** Further vocabulary: matcher and redactor *)

(** The character before a position is a word character. *)
Definition word_before (prev : option ascii) : bool :=
  match prev with
  | Some c => is_word c
  | None => false
  end.

(** Some character of [s] satisfies [P]. *)
Fixpoint has (P : ascii -> bool) (s : string) : bool :=
  match s with
  | EmptyString => false
  | String c s' => P c || has P s'
  end.

Definition all_ascii : list ascii := map ascii_of_nat (seq 0 256).

(** Every character of the class [p] satisfies [P]. *)
Definition class_within (p P : ascii -> bool) : bool :=
  forallb (fun c => implb (p c) (P c)) all_ascii.

(** Every match of [r] holds a character that satisfies [P]: a sufficient
    test on the shape of [r]. *)
Fixpoint needs (P : ascii -> bool) (r : regex) : bool :=
  match r with
  | Eps => false
  | Cls p => class_within p P
  | Cat r1 r2 => needs P r1 || needs P r2
  | Alt r1 r2 => needs P r1 && needs P r2
  | Star _ => false
  | WordB => false
  end.

(** ** Further vocabulary: letter case *)

(** [prev] after lowercasing the text before the position. *)
Definition lower_prev (prev : option ascii) : option ascii :=
  option_map lower_char prev.

(** The result of a match on the lowercased text. *)
Definition lower_result (res : option ascii * string) : option ascii * string :=
  (lower_prev (fst res), lower (snd res)).

(** A pattern that does not tell a letter from its lowercase form. *)
Fixpoint case_blind (r : regex) : bool :=
  match r with
  | Eps | WordB => true
  | Cls p => forallb (fun c => Bool.eqb (p (lower_char c)) (p c)) all_ascii
  | Cat r1 r2 | Alt r1 r2 => case_blind r1 && case_blind r2
  | Star r' => case_blind r'
  end.

(** The e-mail with its three fields lowercased. *)
Definition lower_email (email : email_data) : email_data :=
  Email (option_map lower (subject email)) (option_map lower (body email))
        (option_map lower (sender email)).

(** ** Further vocabulary: Gmail messages *)

Definition has_mime (mime_type : option string) (m : string) : bool :=
  match mime_type with
  | Some m' => String.eqb m' m
  | None => false
  end.

(** The data of the parts of type [m] that hold data, in document order:
    a part before its sub-parts, the sub-parts from first to last. *)
Fixpoint datas_of (m : string) (part : payload) : list string :=
  match part with
  | Payload _ mime_type body_data parts =>
      List.app
        (match truthy body_data with
         | Some data =>
             if has_mime mime_type "text/plain" then
               if String.eqb m "text/plain" then [data] else []
             else if has_mime mime_type "text/html" then
               if String.eqb m "text/html" then [data] else []
             else []
         | None => []
         end)
        (flat_map (datas_of m) parts)
  end.

(** ** Further vocabulary: what a pattern matches

    The matches of a pattern, said without the matcher: [matches r prev m rest]
    holds when the text [m], found behind the character [prev] and followed
    by [rest], is in the language of [r]; [prev] and [rest] matter for [\b]
    only. *)

(** The character before the position behind [m], for [m] starting behind
    [prev]. *)
Fixpoint last_char (prev : option ascii) (m : string) : option ascii :=
  match m with
  | EmptyString => prev
  | String c m' => last_char (Some c) m'
  end.

(** The language of a pattern. *)
Inductive matches : regex -> option ascii -> string -> string -> Prop :=
| matches_eps prev rest : matches Eps prev "" rest
| matches_cls p prev c rest : p c = true -> matches (Cls p) prev (String c "") rest
| matches_cat r1 r2 prev m1 m2 rest :
    matches r1 prev m1 (m2 ++ rest) ->
    matches r2 (last_char prev m1) m2 rest ->
    matches (Cat r1 r2) prev (m1 ++ m2) rest
| matches_alt_l r1 r2 prev m rest :
    matches r1 prev m rest -> matches (Alt r1 r2) prev m rest
| matches_alt_r r1 r2 prev m rest :
    matches r2 prev m rest -> matches (Alt r1 r2) prev m rest
| matches_star_stop r prev rest : matches (Star r) prev "" rest
| matches_star_more r prev m1 m2 rest :
    m1 <> "" ->
    matches r prev m1 (m2 ++ rest) ->
    matches (Star r) (last_char prev m1) m2 rest ->
    matches (Star r) prev (m1 ++ m2) rest
| matches_wordb prev rest :
    Re.at_boundary prev rest = true -> matches WordB prev "" rest.

(** One pass of [re.sub] as the specification words it, each match
    replaced by the token: reading [s] from the left, a text that matches is
    replaced by [token] and the reading resumes behind it; a character is
    kept only where no match starts; no match is empty. *)
Inductive redacts (r : regex) (token : string)
  : option ascii -> string -> string -> Prop :=
| redacts_end prev :
    ~ matches r prev "" "" -> redacts r token prev "" ""
| redacts_keep prev c s out :
    (forall m rest, String c s = m ++ rest -> ~ matches r prev m rest) ->
    redacts r token (Some c) s out ->
    redacts r token prev (String c s) (String c out)
| redacts_hit prev m rest out :
    m <> "" ->
    matches r prev m rest ->
    redacts r token (last_char prev m) rest out ->
    redacts r token prev (m ++ rest) (token ++ out).

(** The passes of a list of steps, one after the other. *)
Inductive redacted_by : list (regex * string) -> string -> string -> Prop :=
| redacted_by_nil s : redacted_by [] s s
| redacted_by_cons r token steps s mid out :
    redacts r token None s mid ->
    redacted_by steps mid out ->
    redacted_by ((r, token) :: steps) s out.

Definition any_char (c : ascii) : bool := true.

(** The character before a position is a character of ASCII, or the
    position is the start of the text. *)
Definition ascii_before (prev : option ascii) : bool :=
  match prev with
  | Some c => is_ascii_char c
  | None => true
  end.

Definition is_bracket (c : ascii) : bool := Ascii.eqb c "[" || Ascii.eqb c "]".

(** A character that occurs in no token: neither a bracket nor a capital. *)
Definition outside_tokens (c : ascii) : bool := negb (is_bracket c || is_upper c).

(** The number of characters of [s] that satisfy [P]. *)
Fixpoint count (P : ascii -> bool) (s : string) : nat :=
  match s with
  | EmptyString => 0
  | String c s' => (if P c then 1 else 0) + count P s'
  end.

(** No class of [r] holds a character that satisfies [P]. *)
Fixpoint avoids (P : ascii -> bool) (r : regex) : bool :=
  match r with
  | Eps | WordB => true
  | Cls p => class_within p (fun c => negb (P c))
  | Cat r1 r2 | Alt r1 r2 => avoids P r1 && avoids P r2
  | Star r' => avoids P r'
  end.

(** The steps of the sequence other than the URL step. *)
Definition steps_but_url : list (regex * string) :=
  (firstn 4 spec_redaction_steps ++ skipn 5 spec_redaction_steps)%list.

(** A text with one item for each step of the sequence. *)
Definition sample_text : string :=
  "Dr. Ann Lee, 12 Main Street; ann@x.org, 555-123-4567, A(555) 123-4567, "
  ++ "x+44 555 123 4567, https://x.org/a, 1234-5678-9012-3456, 123-45-6789".

(** * Properties *)

(** ** The local rule engine *)

Lemma some_eq {A : Type} (a b : A) : Some a = Some b -> a = b.
Proof. congruence. Qed.

(** Splits a hypothesis [classify_locally kws sender subject = Some r] into
    one case per rule that can have produced [r]. *)
Ltac rule_cases H :=
  unfold classify_locally in H;
  match type of H with
  | match ?kws with [] => _ | _ :: _ => _ end = _ =>
      destruct kws eqn:?; [discriminate H|]
  end;
  cbv zeta in H;
  repeat match type of H with
         | (if ?c then _ else _) = _ => destruct c eqn:?
         end;
  try discriminate H;
  apply some_eq in H; subst.

(** C10: with an empty keyword list [classify_locally] answers [None],
    whatever the sender and the subject are: the sender rule and the subject
    rules are not consulted. *)
Theorem empty_keywords_no_local_result :
  forall sender subject : string, classify_locally [] sender subject = None.
Proof. intros sender subject. reflexivity. Qed.

(** C6: a result of [classify_locally] carries one of the five literal
    confidences 0.9, 0.85, 0.8, 0.75, 0.7. *)
Theorem local_confidence_is_literal :
  forall (keywords : list string) (sender subject : string) (r : classification),
    classify_locally keywords sender subject = Some r ->
    In (confidence r) local_confidences.
Proof.
  intros keywords sender subject r H.
  rule_cases H; unfold local_confidences; simpl; auto 10.
Qed.

Lemma local_confidence_is_literal_witness :
  In (confidence (Classification "financial" "high" 0.85 "Financial keywords detected"))
     local_confidences.
Proof.
  apply (local_confidence_is_literal invoice_keywords "billing@company.com"
                                     "Urgent: Invoice Payment Required").
  reflexivity.
Defined.

(** Every literal confidence passes the test [>= 0.7] of the orchestrator. *)
Lemma local_confidence_above_threshold :
  forall (keywords : list string) (sender subject : string) (r : classification),
    classify_locally keywords sender subject = Some r ->
    PrimFloat.leb 0.7 (confidence r) = true.
Proof.
  intros keywords sender subject r H.
  rule_cases H; reflexivity.
Qed.

(** *** Priority elevation in the meetings and work rules *)

Lemma mem_true_In (x : string) (l : list string) :
  mem x l = true -> In x l.
Proof.
  unfold mem. intros H. apply existsb_exists in H as (y & Hy & Heq).
  apply String.eqb_eq in Heq. now subst.
Qed.

Lemma In_mem_true (x : string) (l : list string) :
  In x l -> mem x l = true.
Proof.
  unfold mem. intros H. apply existsb_exists. exists x. split; [assumption|].
  apply String.eqb_refl.
Qed.

Lemma literal_prefix_is_tagged (l : list string) :
  mem "urgency:" l = true -> existsb urgency_tagged l = true.
Proof.
  intros H. apply mem_true_In in H. apply existsb_exists.
  exists "urgency:". split; [assumption | reflexivity].
Qed.

Lemma prefix_colon (s : string) :
  String.prefix ":" s = match s with
                        | String c _ => Ascii.eqb c ":"
                        | EmptyString => false
                        end.
Proof.
  destruct s as [|c s]; [reflexivity|]. cbn [String.prefix].
  destruct (ascii_dec ":" c) as [<-|Hne].
  - now destruct s.
  - symmetry. apply Ascii.eqb_neq. congruence.
Qed.

(** [kw.split(':')[0]] holds no colon. *)
Lemma before_first_colon_free (s : string) :
  contains ":" (before_first ":" s) = false.
Proof.
  induction s as [|c s IH]; [reflexivity|].
  cbn [before_first]. rewrite prefix_colon.
  destruct (Ascii.eqb c ":") eqn:Hc; [reflexivity|].
  cbn [contains]. rewrite prefix_colon, Hc. exact IH.
Qed.

(** The test of the work rule compares the text before a colon with a text
    that ends in a colon: it never succeeds. *)
Lemma work_rule_test_never_succeeds (keywords : list string) :
  mem "urgency:" (map (before_first ":") (filter (contains ":") keywords)) = false.
Proof.
  destruct (mem _ _) eqn:H; [|reflexivity].
  apply mem_true_In, in_map_iff in H as (kw & Hkw & _).
  pose proof (before_first_colon_free kw) as Hfree.
  rewrite Hkw in Hfree. discriminate Hfree.
Qed.

(** C5, as the code has it: in the meetings rule the sentinel
    [has_time_reference] raises the priority to high, and without the
    sentinel and without any urgency-tagged keyword the priority is medium;
    in the work rule the priority is medium when no keyword is
    urgency-tagged.  (What the two rules answer for a list that holds an
    urgency-tagged keyword is not part of this statement.) *)
Theorem priority_elevation :
  forall (keywords : list string) (sender subject : string) (r : classification),
    classify_locally keywords sender subject = Some r ->
    (category r = "meetings" -> mem "has_time_reference" keywords = true ->
     priority r = "high")
    /\ (category r = "meetings" -> mem "has_time_reference" keywords = false ->
        existsb urgency_tagged keywords = false -> priority r = "medium")
    /\ (category r = "work" -> existsb urgency_tagged keywords = false ->
        priority r = "medium").
Proof.
  intros keywords sender subject r H.
  rule_cases H; cbn [category priority];
    (repeat split; intros; try discriminate; try reflexivity).
  - (* meetings, sentinel present *)
    cbn [existsb]. rewrite H0. now rewrite orb_true_r.
  - (* meetings, neither sentinel nor urgency tag *)
    cbn [existsb]. rewrite H0, orb_false_r.
    destruct (mem "urgency:" _) eqn:Hlit; [|reflexivity].
    apply literal_prefix_is_tagged in Hlit. congruence.
  - (* work *)
    now rewrite work_rule_test_never_succeeds.
Qed.

Lemma priority_elevation_witness :
  priority (Classification "meetings" "high" 0.8 "Meeting/calendar keywords detected")
  = "high".
Proof.
  apply (priority_elevation timed_meeting_keywords "" "");
    reflexivity.
Defined.

(** C5 as stated fails: a meeting keyword with a time reference and no
    urgency-tagged keyword is given priority high, not medium. *)
Lemma high_priority_without_urgency_tag :
  existsb urgency_tagged timed_meeting_keywords = false
  /\ classify_locally timed_meeting_keywords "" ""
     = Some (Classification "meetings" "high" 0.8
               "Meeting/calendar keywords detected").
Proof. split; reflexivity. Qed.

(** The literal ["urgency:"] is looked up among whole keywords (meetings) and
    among the texts before a colon (work), so a keyword [urgency:<term>] of
    the extractor raises neither priority. *)
Lemma urgency_keyword_not_recognised :
  classify_locally ["meeting:meeting"; "urgency:asap"] "" ""
  = Some (Classification "meetings" "medium" 0.8 "Meeting/calendar keywords detected")
  /\ classify_locally ["work:project"; "urgency:asap"] "" ""
     = Some (Classification "work" "medium" 0.75 "Work/project keywords detected").
Proof. split; reflexivity. Qed.

(** The work rule never answers high. *)
Lemma work_rule_always_medium :
  forall (keywords : list string) (sender subject : string) (r : classification),
    classify_locally keywords sender subject = Some r ->
    category r = "work" -> priority r = "medium".
Proof.
  intros keywords sender subject r H.
  rule_cases H; cbn [category priority]; intros; try discriminate.
  now rewrite work_rule_test_never_succeeds.
Qed.

(** ** The remote inference adapter *)

Section RemoteAdapter.

Variable chat_create : string -> outcome (list (option string)).
Variable json_loads : string -> outcome pyval.

(** The adapter run on any log: what it appends and what it returns.  The
    [await] raises on every completion the call returns, so the outer
    handler answers in every run. *)
Lemma classify_with_openai_run (redacted_content : string)
  (keywords : list string) (log : list event) :
  classify_with_openai chat_create json_loads redacted_content keywords log
  = (Ok (fallback 0.2
           ("OpenAI classification failed: "
            ++ exn_message (call_failure chat_create redacted_content keywords))),
     (log ++ [RemoteCall redacted_content keywords;
              ServiceRequest (build_prompt redacted_content keywords)])%list).
Proof.
  unfold classify_with_openai, call_failure, bind, emit, try_except, lift, ret.
  cbv zeta. rewrite <- app_assoc. cbn [app].
  destruct (chat_create _) as [choices|e]; reflexivity.
Qed.

(** The adapter returns a value on every input; no exception of the service
    call or of the [await] escapes. *)
Lemma classify_with_openai_never_raises (redacted_content : string)
  (keywords : list string) (log : list event) :
  exists v : pyval,
    fst (classify_with_openai chat_create json_loads redacted_content keywords log)
    = Ok v.
Proof. rewrite classify_with_openai_run. eexists. reflexivity. Qed.

(** A failing service call yields the 0.2 fallback. *)
Lemma service_failure_fallback (redacted_content : string)
  (keywords : list string) (log : list event) (e : exn) :
  chat_create (build_prompt redacted_content keywords) = Raise e ->
  fst (classify_with_openai chat_create json_loads redacted_content keywords log)
  = Ok (fallback 0.2 ("OpenAI classification failed: " ++ exn_message e)).
Proof.
  intros H. rewrite classify_with_openai_run. unfold call_failure.
  now rewrite H.
Qed.

(** C2 says that a reply that cannot be parsed, or that lacks one of the
    four fields, is answered with the 0.3 fallback of a parse failure.  In
    the code no reply reaches the parser: the client is the synchronous one,
    its call returns the completion itself, and the [await] on a completion
    raises a [TypeError], which the outer handler answers with the 0.2
    fallback of a failed service call.  So whatever the service replies, the
    adapter returns the 0.2 fallback and never the 0.3 one. *)
Theorem answered_call_takes_service_fallback (redacted_content : string)
  (keywords : list string) (log : list event) (choices : list (option string)) :
  chat_create (build_prompt redacted_content keywords) = Ok choices ->
  fst (classify_with_openai chat_create json_loads redacted_content keywords log)
  = Ok (fallback 0.2
          ("OpenAI classification failed: "
           ++ "object ChatCompletion can't be used in 'await' expression"))
  /\ (forall cause : string,
        fst (classify_with_openai chat_create json_loads redacted_content keywords log)
        <> Ok (fallback 0.3 ("OpenAI response parsing failed: " ++ cause))).
Proof.
  intros Hcall. rewrite classify_with_openai_run. unfold call_failure.
  rewrite Hcall. split; [reflexivity|].
  intros cause H. cbn in H. discriminate H.
Qed.

End RemoteAdapter.

(** The reply of the witness is one that the parser of the inner [try]
    block would reject. *)
Lemma answered_call_takes_service_fallback_witness :
  parse_response sample_json_loads (strip "I think this is a work email.")
  = Raise (Exn JSONDecodeError "Expecting value: line 1 column 1 (char 0)")
  /\ fst (classify_with_openai garbled_service sample_json_loads "Hello" [] [])
     = Ok (fallback 0.2
             ("OpenAI classification failed: "
              ++ "object ChatCompletion can't be used in 'await' expression"))
  /\ (forall cause : string,
        fst (classify_with_openai garbled_service sample_json_loads "Hello" [] [])
        <> Ok (fallback 0.3 ("OpenAI response parsing failed: " ++ cause))).
Proof.
  split; [vm_compute; reflexivity|].
  apply (answered_call_takes_service_fallback garbled_service sample_json_loads
           "Hello" [] [] [Some "I think this is a work email."]).
  reflexivity.
Defined.

(** ** The orchestrator *)

Lemma dict_get_set_same (d : list (string * pyval)) (key : string) (v : pyval) :
  dict_get (dict_set d key v) key = Some v.
Proof.
  induction d as [|[k v'] d IH]; cbn [dict_set dict_get].
  - now rewrite String.eqb_refl.
  - destruct (String.eqb k key) eqn:Hk; cbn [dict_get]; now rewrite Hk.
Qed.

Lemma dict_get_set_other (d : list (string * pyval)) (key key' : string) (v : pyval) :
  key <> key' -> dict_get (dict_set d key v) key' = dict_get d key'.
Proof.
  intros Hne. induction d as [|[k v'] d IH]; cbn [dict_set dict_get].
  - apply String.eqb_neq in Hne. now rewrite Hne.
  - destruct (String.eqb k key) eqn:Hk; cbn [dict_get].
    + apply String.eqb_eq in Hk. subst k.
      apply String.eqb_neq in Hne. now rewrite Hne.
    + now rewrite IH.
Qed.

Section Orchestrator.

Variable chat_create : string -> outcome (list (option string)).
Variable json_loads : string -> outcome pyval.

(** The two ways through [classify_email]: a local result is returned at
    once, and only the absence of one leads to the remote path. *)
Lemma classify_email_cases (email : email_data) (log : list event) :
  (exists r, local_result_of email = Some r
             /\ classify_email chat_create json_loads email log
                = (Ok (tag_local r), log))
  \/ (local_result_of email = None
      /\ classify_email chat_create json_loads email log
         = escalate chat_create json_loads (full_content_of email)
                    (extract_keywords (full_content_of email)) None log).
Proof.
  unfold classify_email, local_result_of, full_content_of, subject_of, body_of,
    sender_of.
  cbv zeta.
  destruct (classify_locally _ _ _) as [r|] eqn:Hlocal.
  - left. exists r. split; [reflexivity|].
    now rewrite (local_confidence_above_threshold _ _ _ _ Hlocal).
  - right. split; reflexivity.
Qed.

(** The remote path without a local result: the adapter's value, tagged. *)
Lemma escalate_none_run (full_content : string) (keywords : list string)
  (log : list event) :
  exists v0 : pyval,
    escalate chat_create json_loads full_content keywords None log
    = (obind (py_setitem v0 "method" (PStr "openai_api"))
             (fun o => py_setitem o "privacy_protected" (PBool true)),
       (log ++ [RemoteCall (redact_pii (Some full_content)) keywords;
                ServiceRequest
                  (build_prompt (redact_pii (Some full_content)) keywords)])%list).
Proof.
  unfold escalate, bind. cbv zeta. rewrite classify_with_openai_run.
  match goal with |- context [py_setitem ?v "method" _] => exists v end.
  unfold lift, ret.
  destruct (py_setitem _ "method" _) as [o|e]; cbn [obind]; [|reflexivity].
  destruct (py_setitem o _ _); reflexivity.
Qed.

(** C1: when [classify_locally] answers with a confidence of at least 0.7,
    [classify_email] returns that answer tagged [method = local_rules] and
    [privacy_protected = True], and the log of the call is unchanged: neither
    the adapter [classify_with_openai] nor the service is called, so no text,
    raw or redacted, reaches them. *)
Theorem local_fast_path :
  forall (email : email_data) (r : classification) (log : list event),
    local_result_of email = Some r ->
    PrimFloat.leb 0.7 (confidence r) = true ->
    classify_email chat_create json_loads email log = (Ok (tag_local r), log)
    /\ tag_local r
       = PDict [("category", PStr (category r)); ("priority", PStr (priority r));
                ("confidence", PFloat (confidence r));
                ("reasoning", PStr (reasoning r));
                ("method", PStr "local_rules");
                ("privacy_protected", PBool true)].
Proof.
  intros email r log Hlocal Hconf. split; [|reflexivity].
  destruct (classify_email_cases email log) as [(r' & Hr' & Hrun)|(Hnone & _)].
  - congruence.
  - congruence.
Qed.

(** A call of the adapter always shows in the log. *)
Lemma remote_call_is_logged (redacted_content : string) (keywords : list string)
  (log : list event) :
  In (RemoteCall redacted_content keywords)
     (snd (classify_with_openai chat_create json_loads redacted_content keywords log)).
Proof.
  rewrite classify_with_openai_run. cbn [snd]. apply in_or_app. right. now left.
Qed.

(** C9: every local result passes the threshold, the adapter is called only
    when there is no local result, and the merge branch is never entered. *)
Theorem merge_branch_unreachable :
  forall email : email_data,
    (forall r, local_result_of email = Some r ->
               PrimFloat.leb 0.7 (confidence r) = true)
    /\ (forall redacted_content keywords,
          In (RemoteCall redacted_content keywords)
             (snd (classify_email chat_create json_loads email [])) ->
          local_result_of email = None)
    /\ ~ In MergeBranch (snd (classify_email chat_create json_loads email [])).
Proof.
  intros email. split; [|split].
  - intros r Hr. exact (local_confidence_above_threshold _ _ _ _ Hr).
  - intros redacted_content keywords Hin.
    destruct (classify_email_cases email []) as [(r & _ & Hrun)|(Hnone & _)];
      [|assumption].
    rewrite Hrun in Hin. destruct Hin.
  - destruct (classify_email_cases email []) as [(r & _ & Hrun)|(_ & Hrun)];
      rewrite Hrun.
    + intros [].
    + destruct (escalate_none_run (full_content_of email)
                  (extract_keywords (full_content_of email)) []) as (v0 & Hesc).
      rewrite Hesc. cbn [snd app In]. intros [H|[H|[]]]; discriminate H.
Qed.


End Orchestrator.

Lemma local_fast_path_witness :
  classify_email unreachable_service sample_json_loads invoice_email []
  = (Ok (tag_local (Classification "financial" "high" 0.85
                      "Financial keywords detected")), [])
  /\ tag_local (Classification "financial" "high" 0.85 "Financial keywords detected")
     = PDict [("category", PStr "financial"); ("priority", PStr "high");
              ("confidence", PFloat 0.85);
              ("reasoning", PStr "Financial keywords detected");
              ("method", PStr "local_rules");
              ("privacy_protected", PBool true)].
Proof.
  apply (local_fast_path unreachable_service sample_json_loads invoice_email
           (Classification "financial" "high" 0.85 "Financial keywords detected")
           []); vm_compute; reflexivity.
Defined.

(** ** The matcher and [re.sub] *)

Section Matcher.

Variable r : regex.
Variable repl : string.

(** Without a match anywhere, [re.sub] returns its input. *)
Lemma sub_loop_no_match (fuel : nat) :
  forall (prev : option ascii) (s : string),
    Re.search_from r prev s = false -> Re.sub_loop r repl fuel prev s = s.
Proof.
  induction fuel as [|fuel IH]; intros prev s Hsearch; [reflexivity|].
  cbn [Re.sub_loop].
  destruct s as [|c s]; cbn [Re.search_from] in Hsearch;
    destruct (Re.match_at r prev _) as [[p' rest]|]; try discriminate Hsearch.
  - reflexivity.
  - f_equal. now apply IH.
Qed.

Lemma sub_no_match (s : string) :
  Re.search r s = false -> Re.sub r repl s = s.
Proof. apply sub_loop_no_match. Qed.

End Matcher.

Lemma is_suffix_refl (s : string) : is_suffix s s.
Proof. now exists "". Qed.

Lemma append_assoc (a b c : string) : (a ++ b) ++ c = a ++ (b ++ c).
Proof. induction a as [|x a IH]; cbn; [reflexivity | now rewrite IH]. Qed.

Lemma is_suffix_trans (a b c : string) :
  is_suffix a b -> is_suffix b c -> is_suffix a c.
Proof.
  intros [u ->] [v ->]. exists (v ++ u). now rewrite append_assoc.
Qed.

Lemma rmatch_consumes (r : regex) :
  forall (prev : option ascii) (s : string) (k : Re.cont) res,
    Re.rmatch r prev s k = Some res ->
    exists p' s', is_suffix s' s /\ k p' s' = Some res.
Proof.
  induction r as [|p|r1 IH1 r2 IH2|r1 IH1 r2 IH2|r' IH|]; intros prev s k res H;
    cbn [Re.rmatch] in H.
  - exists prev, s. split; [apply is_suffix_refl | assumption].
  - destruct s as [|c s]; [discriminate H|].
    destruct (p c); [|discriminate H].
    exists (Some c), s. split; [now exists (String c "") | assumption].
  - apply IH1 in H as (p1 & s1 & Hs1 & H).
    apply IH2 in H as (p2 & s2 & Hs2 & H).
    exists p2, s2. split; [eapply is_suffix_trans; eassumption | assumption].
  - destruct (Re.rmatch r1 prev s k) eqn:H1.
    + injection H as <-. now apply IH1 in H1.
    + now apply IH2 in H.
  - remember (String.length s) as n eqn:Hn. clear Hn.
    revert prev s H. induction n as [|n IHn]; intros prev s H.
    + exists prev, s. split; [apply is_suffix_refl | assumption].
    + match type of H with
      | match ?m with _ => _ end = _ => destruct m eqn:Hbody
      end.
      * injection H as <-.
        apply IH in Hbody as (p1 & s1 & Hs1 & Hk).
        destruct (Nat.ltb _ _); [|discriminate Hk].
        apply IHn in Hk as (p2 & s2 & Hs2 & Hk).
        exists p2, s2. split; [eapply is_suffix_trans; eassumption | assumption].
      * exists prev, s. split; [apply is_suffix_refl | assumption].
  - destruct (Re.at_boundary prev s); [|discriminate H].
    exists prev, s. split; [apply is_suffix_refl | assumption].
Qed.

Lemma match_at_suffix (r : regex) (prev p' : option ascii) (s rest : string) :
  Re.match_at r prev s = Some (p', rest) -> is_suffix rest s.
Proof.
  intros H. apply rmatch_consumes in H as (p1 & s1 & Hs & H).
  now injection H as _ <-.
Qed.

(** *** What [re.sub] writes *)

Lemma length_append (a b : string) :
  String.length (a ++ b) = String.length a + String.length b.
Proof. induction a as [|x a IH]; cbn; [reflexivity | now rewrite IH]. Qed.

Lemma append_empty_r (a : string) : a ++ "" = a.
Proof. induction a as [|x a IH]; cbn; [reflexivity | now rewrite IH]. Qed.

Lemma suffix_not_shorter (rest s : string) :
  is_suffix rest s -> Nat.ltb (String.length rest) (String.length s) = false ->
  rest = s.
Proof.
  intros [u ->] Hlen. apply Nat.ltb_ge in Hlen. rewrite length_append in Hlen.
  destruct u as [|c u]; [reflexivity|]. cbn in Hlen. lia.
Qed.

Lemma sub_loop_pieces (r : regex) (repl : string) (fuel : nat) :
  forall (prev : option ascii) (s : string),
    String.length s < fuel ->
    exists ps : list piece,
      original ps = s
      /\ replaced repl ps = Re.sub_loop r repl fuel prev s
      /\ hits_match r prev ps.
Proof.
  induction fuel as [|fuel IH]; intros prev s Hfuel; [lia|].
  cbn [Re.sub_loop].
  destruct (Re.match_at r prev s) as [[p' rest]|] eqn:Hm.
  - pose proof (match_at_suffix _ _ _ _ _ Hm) as Hsuf.
    destruct (Nat.ltb (String.length rest) (String.length s)) eqn:Hlen.
    + apply Nat.ltb_lt in Hlen.
      assert (Hlt : String.length rest < fuel) by lia.
      destruct (IH p' rest Hlt) as (ps & Hor & Hre & Hhit).
      destruct Hsuf as [u ->].
      exists (Hit u :: ps). cbn [original replaced hits_match].
      rewrite Hor, Hre. repeat split. exists p'. now split.
    + apply suffix_not_shorter in Hsuf; [|assumption]. subst rest.
      destruct s as [|c s].
      * exists [Hit ""]. cbn [original replaced hits_match].
        rewrite (append_empty_r repl). repeat split. exists p'. now split.
      * cbn in Hfuel. assert (Hlt : String.length s < fuel) by lia.
        destruct (IH (Some c) s Hlt) as (ps & Hor & Hre & Hhit).
        exists (Hit "" :: Kept c :: ps). cbn [original replaced hits_match].
        rewrite Hor, Hre. repeat split. exists p'. now split.
  - destruct s as [|c s].
    + exists []. now repeat split.
    + cbn in Hfuel. assert (Hlt : String.length s < fuel) by lia.
      destruct (IH (Some c) s Hlt) as (ps & Hor & Hre & Hhit).
      exists (Kept c :: ps). cbn [original replaced hits_match].
      rewrite Hor, Hre. now repeat split.
Qed.

(** [re.sub(r, repl, s)] is [s] with matches of [r] replaced by [repl]. *)
Lemma sub_replaces_matches (r : regex) (repl s : string) :
  exists ps : list piece,
    original ps = s /\ replaced repl ps = Re.sub r repl s /\ hits_match r None ps.
Proof. apply sub_loop_pieces. lia. Qed.

(** ** The redactor *)

Lemma redact_pii_nonempty (c : ascii) (text : string) :
  redact_pii (Some (String c text)) = redact_in_sequence (String c text).
Proof.
  unfold redact_pii, redact_in_sequence, spec_redaction_steps, Pat.phone_patterns.
  cbn [fold_left fst snd]. reflexivity.
Qed.

(** One example for each token. *)
Lemma redaction_examples :
  redact_pii (Some "Contact John Doe at john@example.com or 555-123-4567")
  = "Contact John Doe at [EMAIL] or [PHONE]"
  /\ redact_pii (Some "see https://example.com/a?b=1 for details")
     = "see [URL] for details"
  /\ redact_pii (Some "card 1234-5678-9012-3456, ssn 123-45-6789")
     = "card [CARD], ssn [SSN]"
  /\ redact_pii (Some "Dear Dr. Smith, come to 12 Main Street today")
     = "Dear [NAME], come to [ADDRESS] today".
Proof. repeat split; vm_compute; reflexivity. Qed.

(** The order shows: with the phone pass first the digits before the [@]
    would go, and the e-mail pattern would find no local part. *)
Lemma email_pass_precedes_phone_pass :
  redact_pii (Some "5551234567@example.com") = "[EMAIL]"
  /\ Re.sub Pat.email "[EMAIL]"
       (Re.sub Pat.phone_dashed "[PHONE]" "5551234567@example.com")
     = "[PHONE]@example.com".
Proof. split; vm_compute; reflexivity. Qed.

Lemma redact_in_sequence_no_residue (s : string) :
  no_residue s = true -> redact_in_sequence s = s.
Proof.
  unfold no_residue, redact_in_sequence, spec_redaction_steps.
  cbn [forallb fold_left fst snd]. intros H.
  repeat match type of H with
         | _ && _ = true => apply andb_prop in H as [?Hstep H]
         end.
  repeat match goal with
         | Hstep : negb (Re.search ?p s) = true |- _ =>
             apply negb_true_iff in Hstep;
             rewrite (sub_no_match p _ s Hstep); clear Hstep
         end.
  reflexivity.
Qed.

(** A text can be redacted further: digits that end in a letter are no
    phone number until the URL behind them has become a token. *)
Lemma residue_breaks_idempotence :
  redact_pii (Some "5551234567http://x.com") = "5551234567[URL]"
  /\ no_residue "5551234567[URL]" = false
  /\ redact_pii (Some "5551234567[URL]") = "[PHONE][URL]".
Proof. repeat split; vm_compute; reflexivity. Qed.

(** Inside one call a token can be rewritten: the class [[$-_@.&+]] of the
    URL pattern spans the brackets and the capitals, so a URL takes an
    [[EMAIL]] token that follows it along. *)
Lemma url_pass_takes_token_along :
  Re.sub Pat.email "[EMAIL]" "http://a.b/x@y.zz" = "http://a.b/[EMAIL]"
  /\ redact_pii (Some "http://a.b/x@y.zz") = "[URL]".
Proof. split; vm_compute; reflexivity. Qed.

(** ** The spam rule and the extractor *)

(** The text of the scenario of C4 has no term of the extractor's lists:
    no keyword is found, no spam indicator is hit and no rule fires. *)
Lemma offer_text_yields_no_keywords :
  extract_keywords offer_text = []
  /\ spam_hits (extract_keywords offer_text) = 0
  /\ classify_locally (extract_keywords offer_text) "deals@shop.example" offer_subject
     = None.
Proof. repeat split; vm_compute; reflexivity. Qed.

(** The spam rule as it is written: a keyword list whose terms hit at least
    two spam indicators is answered spam, low, 0.9. *)
Lemma spam_rule_fires_on_two_hits (keywords : list string) (sender subject : string) :
  2 <= spam_hits keywords ->
  classify_locally keywords sender subject = Some spam_result.
Proof.
  intros Hhits. unfold spam_hits in Hhits.
  destruct keywords as [|kw keywords]; [cbn in Hhits; lia|].
  unfold classify_locally. cbv zeta.
  apply Nat.leb_le in Hhits. rewrite Hhits. reflexivity.
Qed.

Lemma in_map_filter {A B : Type} (f : A -> B) (p : A -> bool) (l : list A) (y : B) :
  In y (map f (filter p l)) -> In y (map f l).
Proof.
  intros H. apply in_map_iff in H as (x & <- & Hx).
  apply filter_In in Hx as [Hx _]. now apply in_map.
Qed.

Lemma found_keywords_in_vocabulary (text text_lower kw : string) :
  In kw (found_keywords text text_lower) -> In kw vocabulary.
Proof.
  unfold found_keywords, vocabulary. cbv zeta. intros H.
  assert (Hcore :
    forall l,
      In kw (flat_map (fun '(category, keywords) =>
                         map (fun keyword => category ++ ":" ++ keyword)
                             (filter (fun keyword => contains keyword text_lower)
                                     keywords)) l) ->
      In kw (flat_map (fun '(category, keywords) =>
                         map (fun keyword => category ++ ":" ++ keyword) keywords) l)).
  { intros l Hl. apply in_flat_map in Hl as ([category keywords] & Hin & Hkw).
    apply in_flat_map. exists (category, keywords). split; [assumption|].
    eapply in_map_filter. eassumption. }
  repeat match type of H with
         | In _ (if ?c then _ else _) => destruct c
         | In _ (_ ++ _)%list => apply in_app_or in H as [H|H]
         end;
    first [ apply in_or_app; left; now apply Hcore
          | apply in_or_app; right; apply in_or_app; left;
            eapply in_map_filter; eassumption
          | apply in_or_app; right; apply in_or_app; right;
            cbn [In] in *; tauto ].
Qed.

Lemma extract_keywords_in_vocabulary (text kw : string) :
  In kw (extract_keywords text) -> In kw vocabulary.
Proof.
  unfold extract_keywords, list_of_set.
  destruct text as [|c text]; [intros []|]. cbv zeta. intros H.
  apply nodup_In in H. eapply found_keywords_in_vocabulary. eassumption.
Qed.

Lemma filter_length_mono {A : Type} (p q : A -> bool) (l : list A) :
  (forall x, p x = true -> q x = true) ->
  List.length (filter p l) <= List.length (filter q l).
Proof.
  intros Hpq. induction l as [|x l IH]; cbn [filter]; [lia|].
  destruct (p x) eqn:Hp.
  - rewrite (Hpq x Hp). cbn [List.length]. lia.
  - destruct (q x); cbn [List.length]; lia.
Qed.

Lemma keyword_strings_mono (keywords keywords' : list string) (term : string) :
  (forall kw, In kw keywords -> In kw keywords') ->
  mem term (keyword_strings keywords) = true ->
  mem term (keyword_strings keywords') = true.
Proof.
  intros Hsub H. apply mem_true_In in H. apply In_mem_true.
  unfold keyword_strings in *. apply in_map_iff in H as (kw & <- & Hkw).
  apply in_map_iff. exists kw. split; [reflexivity | now apply Hsub].
Qed.

(** Of the twelve spam indicators the extractor knows [urgent] alone, so no
    text gives the two hits the spam rule asks for. *)
Lemma extractor_never_feeds_spam_rule (text : string) :
  spam_hits (extract_keywords text) <= 1.
Proof.
  unfold spam_hits, intersection.
  etransitivity.
  - apply filter_length_mono with
      (q := fun term => mem term (keyword_strings vocabulary)).
    intros term. apply keyword_strings_mono.
    intros kw. apply extract_keywords_in_vocabulary.
  - vm_compute. lia.
Qed.

(** C4 says that the subject of the scenario is answered spam, low, 0.9 by
    the spam rule.  The rule is there, but [extract_keywords] has no list of
    spam or marketing terms.  The text of the scenario holds the indicators
    [limited time] and [offer]; the extractor reports neither, finds no
    keyword at all, and [classify_locally] answers [None] for every sender.
    For no text does the extractor report the two indicators the rule needs. *)
Theorem spam_scenario_is_not_answered_spam :
  (contains "limited time" (normalised_lower offer_text) = true
   /\ contains "offer" (normalised_lower offer_text) = true
   /\ mem "limited time" spam_indicators = true
   /\ mem "offer" spam_indicators = true)
  /\ extract_keywords offer_text = []
  /\ spam_hits (extract_keywords offer_text) = 0
  /\ (forall sender : string,
        classify_locally (extract_keywords offer_text) sender offer_subject = None)
  /\ (forall text : string, spam_hits (extract_keywords text) <= 1).
Proof.
  assert (H : extract_keywords offer_text = []) by (vm_compute; reflexivity).
  split; [repeat split; vm_compute; reflexivity|].
  split; [exact H|]. rewrite H.
  split; [reflexivity|].
  split; [intros sender; reflexivity|].
  exact extractor_never_feeds_spam_rule.
Qed.

(** ** Examples of whole runs *)

Lemma merge_branch_unreachable_witness :
  PrimFloat.leb 0.7 (confidence (Classification "financial" "high" 0.85
                                   "Financial keywords detected")) = true
  /\ local_result_of plain_email = None
  /\ ~ In MergeBranch
       (snd (classify_email unreachable_service sample_json_loads plain_email [])).
Proof.
  destruct (merge_branch_unreachable unreachable_service sample_json_loads
              invoice_email) as (Hconf & _ & _).
  destruct (merge_branch_unreachable unreachable_service sample_json_loads
              plain_email) as (_ & Hremote & Hmerge).
  split; [|split].
  - apply Hconf. vm_compute. reflexivity.
  - eapply Hremote. vm_compute. left. reflexivity.
  - exact Hmerge.
Defined.


(** On the remote path a complete reply is lost as well: the [await] on
    the completion raises before the reply is read. *)
Lemma complete_reply_is_dropped :
  fst (classify_email newsletter_service sample_json_loads plain_email [])
  = Ok (tagged_fallback "object ChatCompletion can't be used in 'await' expression").
Proof. vm_compute. reflexivity. Qed.


(** No rule fires and the service cannot be reached: the 0.2 fallback,
    tagged as a remote result. *)
Lemma unreachable_service_run :
  fst (classify_email unreachable_service sample_json_loads plain_email [])
  = Ok (PDict [("category", PStr "other"); ("priority", PStr "medium");
               ("confidence", PFloat 0.2);
               ("reasoning", PStr "OpenAI classification failed: Connection error.");
               ("method", PStr "openai_api");
               ("privacy_protected", PBool true)]).
Proof. vm_compute. reflexivity. Qed.

(** Inside [classify_email] the spam rule never answers. *)
Lemma pipeline_never_answers_spam (email : email_data) (r : classification) :
  local_result_of email = Some r -> category r <> "spam".
Proof.
  unfold local_result_of. intros H.
  pose proof (extractor_never_feeds_spam_rule (full_content_of email)) as Hhits.
  unfold spam_hits in Hhits.
  rule_cases H; cbn [category]; try discriminate.
  match goal with
  | Hspam : Nat.leb 2 _ = true |- _ => apply Nat.leb_le in Hspam
  end.
  lia.
Qed.

(** * Further properties of the code *)

(** ** [classify_locally] *)

(** X1: the priority of a local result is high, medium or low. *)
Theorem local_priority_domain :
  forall (keywords : list string) (sender subject : string) (r : classification),
    classify_locally keywords sender subject = Some r ->
    In (priority r) priorities.
Proof.
  intros keywords sender subject r H.
  rule_cases H; unfold priorities; cbn [priority In];
    repeat match goal with
           | |- context [if ?c then _ else _] => destruct c
           end; auto.
Qed.

Lemma local_priority_domain_witness :
  In (priority (Classification "financial" "high" 0.85 "Financial keywords detected"))
     priorities.
Proof.
  apply (local_priority_domain invoice_keywords "billing@company.com"
           "Urgent: Invoice Payment Required").
  reflexivity.
Defined.

(** X2: a financial result always comes from the financial rule: its
    confidence is 0.85 and its reasoning names the financial keywords.  The
    financial branch of the sender rule (confidence 0.8) is never taken. *)
Theorem financial_result_comes_from_rule_two :
  forall (keywords : list string) (sender subject : string) (r : classification),
    classify_locally keywords sender subject = Some r ->
    category r = "financial" ->
    confidence r = 0.85%float
    /\ reasoning r = "Financial keywords detected"
    /\ priority r = (if mem "urgent" (keyword_strings keywords)
                     then "high" else "medium").
Proof.
  intros keywords sender subject r H.
  rule_cases H; cbn [category confidence reasoning priority]; intros Hcat;
    try discriminate Hcat.
  repeat split.
Qed.

Lemma financial_result_comes_from_rule_two_witness :
  confidence (Classification "financial" "high" 0.85 "Financial keywords detected")
  = 0.85%float
  /\ reasoning (Classification "financial" "high" 0.85 "Financial keywords detected")
     = "Financial keywords detected"
  /\ priority (Classification "financial" "high" 0.85 "Financial keywords detected")
     = (if mem "urgent" (keyword_strings invoice_keywords) then "high" else "medium").
Proof.
  apply (financial_result_comes_from_rule_two invoice_keywords
           "noreply@company.com" "Your invoice"); reflexivity.
Defined.

(** X3: when one of the six keyword rules answers, the answer is the same
    for every sender and subject. *)
Theorem keyword_rules_ignore_sender_and_subject :
  forall (keywords : list string) (sender subject : string) (r : classification),
    classify_locally keywords sender subject = Some r ->
    In (category r) keyword_rule_categories ->
    forall sender' subject' : string,
      classify_locally keywords sender' subject' = Some r.
Proof.
  intros keywords sender subject r H.
  rule_cases H; cbn [category]; unfold keyword_rule_categories; cbn [In];
    intros Hin sender' subject';
    try (exfalso; intuition discriminate);
    unfold classify_locally; cbv zeta;
    repeat match goal with
           | Hc : ?c = _ |- context [if ?c then _ else _] => rewrite Hc
           end;
    reflexivity.
Qed.

Lemma keyword_rules_ignore_sender_and_subject_witness :
  classify_locally invoice_keywords "noreply@shop.example" "Newsletter"
  = Some (Classification "financial" "high" 0.85 "Financial keywords detected").
Proof.
  apply (keyword_rules_ignore_sender_and_subject invoice_keywords
           "billing@company.com" "Urgent: Invoice Payment Required").
  - reflexivity.
  - unfold keyword_rule_categories. cbn [category In]. auto.
Defined.

(** *** The order of the keywords *)

Lemma mem_ext (l l' : list string) (x : string) :
  (forall y, In y l <-> In y l') -> mem x l = mem x l'.
Proof.
  intros Hiff. destruct (mem x l) eqn:H1, (mem x l') eqn:H2; try reflexivity.
  - apply mem_true_In, Hiff, In_mem_true in H1. congruence.
  - apply mem_true_In, Hiff, In_mem_true in H2. congruence.
Qed.

Lemma permutation_in_iff {A : Type} (l l' : list A) :
  Permutation l l' -> forall y, In y l <-> In y l'.
Proof.
  intros Hp y. split; intros Hy.
  - eapply Permutation_in; eassumption.
  - eapply Permutation_in; [apply Permutation_sym|]; eassumption.
Qed.

Lemma permutation_filter_length {A : Type} (p : A -> bool) (l l' : list A) :
  Permutation l l' -> List.length (filter p l) = List.length (filter p l').
Proof.
  induction 1 as [|x l l' _ IH|x y l|l l' l'' _ IH1 _ IH2]; cbn [filter].
  - reflexivity.
  - destruct (p x); cbn [List.length]; now rewrite IH.
  - destruct (p x), (p y); reflexivity.
  - now rewrite IH1.
Qed.

(** X4: the answer of [classify_locally] does not depend on the order in
    which the keywords are listed, so the order in which [list(set(...))]
    yields them plays no part. *)
Theorem classify_locally_ignores_keyword_order :
  forall (keywords keywords' : list string) (sender subject : string),
    Permutation keywords keywords' ->
    classify_locally keywords sender subject
    = classify_locally keywords' sender subject.
Proof.
  intros keywords keywords' sender subject Hp.
  assert (Hmem : forall x, mem x keywords = mem x keywords').
  { intros x. apply mem_ext. now apply permutation_in_iff. }
  assert (Hterms : forall x, mem x (keyword_strings keywords)
                             = mem x (keyword_strings keywords')).
  { intros x. apply mem_ext. apply permutation_in_iff.
    unfold keyword_strings. now apply Permutation_map. }
  assert (Hinter : forall ind, intersection (keyword_strings keywords) ind
                               = intersection (keyword_strings keywords') ind).
  { intros ind. unfold intersection. apply filter_ext. intros x. apply Hterms. }
  assert (Hwork :
    mem "urgency:" (map (before_first ":") (filter (contains ":") keywords))
    = mem "urgency:" (map (before_first ":") (filter (contains ":") keywords'))).
  { now rewrite !work_rule_test_never_succeeds. }
  assert (Hactions :
    List.length (filter (startswith "action:") keywords)
    = List.length (filter (startswith "action:") keywords')).
  { now apply permutation_filter_length. }
  unfold classify_locally.
  destruct keywords as [|kw keywords], keywords' as [|kw' keywords'].
  - reflexivity.
  - apply Permutation_nil in Hp. discriminate Hp.
  - apply Permutation_sym, Permutation_nil in Hp. discriminate Hp.
  - cbv zeta. cbn [existsb].
    rewrite !Hinter, !Hterms, !Hmem, Hwork, Hactions. reflexivity.
Qed.

Lemma classify_locally_ignores_keyword_order_witness :
  classify_locally ["financial:invoice"; "urgency:urgent"] "" ""
  = classify_locally ["urgency:urgent"; "financial:invoice"] "" "".
Proof.
  apply classify_locally_ignores_keyword_order. apply perm_swap.
Defined.

(** ** [extract_keywords] and the pipeline *)

Lemma vocabulary_nodup : NoDup vocabulary.
Proof.
  assert (H : nodup string_dec vocabulary = vocabulary) by (vm_compute; reflexivity).
  rewrite <- H. apply NoDup_nodup.
Qed.

(** X6: whatever the text, [extract_keywords] returns keywords of its fixed
    vocabulary of 84, each at most once, so never more than 84 of them. *)
Theorem extracted_keywords_bounded :
  forall text : string,
    (forall kw, In kw (extract_keywords text) -> In kw vocabulary)
    /\ NoDup (extract_keywords text)
    /\ List.length (extract_keywords text) <= 84.
Proof.
  intros text.
  assert (Hin : forall kw, In kw (extract_keywords text) -> In kw vocabulary)
    by (intros kw; apply extract_keywords_in_vocabulary).
  assert (Hnd : NoDup (extract_keywords text)).
  { unfold extract_keywords, list_of_set. destruct text; [constructor|].
    cbv zeta. apply NoDup_nodup. }
  repeat split; [exact Hin | exact Hnd |].
  change 84 with (List.length vocabulary).
  apply NoDup_incl_length; [exact Hnd | exact Hin].
Qed.

Lemma extracted_keywords_bounded_witness :
  In "financial:invoice" vocabulary.
Proof.
  apply (proj1 (extracted_keywords_bounded (full_content_of invoice_email))).
  vm_compute. do 2 right. left. reflexivity.
Defined.

Lemma no_bare_urgency_keyword (text : string) :
  mem "urgency:" (extract_keywords text) = false.
Proof.
  destruct (mem _ _) eqn:H; [|reflexivity].
  apply mem_true_In, extract_keywords_in_vocabulary, In_mem_true in H.
  vm_compute in H. discriminate H.
Qed.

(** X5: on the keywords of [extract_keywords] the spam rule never answers,
    whatever the text, the sender and the subject: the extractor knows one
    spam indicator only, and the rule asks for two. *)
Theorem spam_rule_is_dead_on_extracted_keywords :
  forall (text sender subject : string) (r : classification),
    classify_locally (extract_keywords text) sender subject = Some r ->
    category r <> "spam".
Proof.
  intros text sender subject r H.
  pose proof (extractor_never_feeds_spam_rule text) as Hhits.
  unfold spam_hits in Hhits.
  rule_cases H; cbn [category]; try discriminate.
  match goal with
  | Hspam : Nat.leb 2 _ = true |- _ => apply Nat.leb_le in Hspam
  end.
  lia.
Qed.

Lemma spam_rule_is_dead_on_extracted_keywords_witness :
  category (Classification "financial" "medium" 0.85 "Financial keywords detected")
  <> "spam".
Proof.
  apply (spam_rule_is_dead_on_extracted_keywords
           "Limited time offer: discount on your invoice" "" "").
  vm_compute. reflexivity.
Defined.

(** X7: inside [classify_email] a meetings result has priority high exactly
    when the extractor found a time reference; an urgency keyword of the
    extractor never raises it. *)
Theorem pipeline_meeting_priority :
  forall (email : email_data) (r : classification),
    local_result_of email = Some r ->
    category r = "meetings" ->
    (priority r = "high"
     <-> mem "has_time_reference" (extract_keywords (full_content_of email)) = true).
Proof.
  intros email r H. unfold local_result_of in H.
  pose proof (no_bare_urgency_keyword (full_content_of email)) as Hbare.
  rule_cases H; cbn [category priority]; intros Hcat; try discriminate Hcat.
  cbn [existsb]. rewrite Hbare. cbn [orb]. rewrite orb_false_r.
  destruct (mem "has_time_reference" _); split; intros Hp;
    first [reflexivity | discriminate Hp].
Qed.

Lemma pipeline_meeting_priority_witness :
  priority (Classification "meetings" "high" 0.8 "Meeting/calendar keywords detected")
  = "high"
  <-> mem "has_time_reference" (extract_keywords (full_content_of meeting_email))
      = true.
Proof.
  apply (pipeline_meeting_priority meeting_email); vm_compute; reflexivity.
Defined.

(** *** Which keywords are reported *)

Lemma append_inj_l (p a b : string) : p ++ a = p ++ b -> a = b.
Proof.
  induction p as [|c p IH]; cbn [append]; intros H; [assumption|].
  injection H as H. now apply IH.
Qed.

(** What [found_keywords] collects: tagged terms, tagged actions and the
    two sentinels. *)
Lemma found_keywords_inv (text text_lower kw : string) :
  In kw (found_keywords text text_lower) ->
  (exists category keywords keyword,
      In (category, keywords) all_keywords /\ In keyword keywords
      /\ contains keyword text_lower = true
      /\ kw = category ++ ":" ++ keyword)
  \/ (exists action, kw = "action:" ++ action)
  \/ kw = "type:question"
  \/ kw = "has_time_reference".
Proof.
  unfold found_keywords. cbv zeta. intros H.
  repeat match type of H with
         | In _ (if ?c then _ else _) => destruct c
         | In _ (_ ++ _)%list => apply in_app_or in H as [H|H]
         end;
    try (cbn [In] in H; destruct H as [<-|[]]; tauto).
  all: try (apply in_map_iff in H as (action & <- & _); right; left;
            now exists action).
  all: left; apply in_flat_map in H as ([category keywords] & Hin & H);
    apply in_map_iff in H as (keyword & <- & H);
    apply filter_In in H as [Hk Hc];
    exists category, keywords, keyword; repeat split; assumption.
Qed.

Lemma tagged_keyword_found (text text_lower category keyword : string)
  (keywords : list string) :
  In (category, keywords) all_keywords -> In keyword keywords ->
  contains keyword text_lower = true ->
  In (category ++ ":" ++ keyword) (found_keywords text text_lower).
Proof.
  intros Hcat Hk Hc. unfold found_keywords. cbv zeta.
  assert (Hcore :
    In (category ++ ":" ++ keyword)
       (flat_map (fun '(category, keywords) =>
                    map (fun keyword => category ++ ":" ++ keyword)
                        (filter (fun keyword => contains keyword text_lower)
                                keywords)) all_keywords)).
  { apply in_flat_map. exists (category, keywords). split; [assumption|].
    apply in_map_iff. exists keyword. split; [reflexivity|].
    apply filter_In. now split. }
  repeat match goal with
         | |- In _ (if ?c then _ else _) => destruct c
         | |- In _ (_ ++ _)%list => apply in_or_app; left
         end;
    exact Hcore.
Qed.

(** X8: a tagged keyword [category:term] is reported exactly when the term
    occurs somewhere in the normalised text, as a substring: inside a longer
    word too. *)
Theorem tagged_keyword_iff_substring :
  forall (text category keyword : string) (keywords : list string),
    text <> "" ->
    In (category, keywords) all_keywords -> In keyword keywords ->
    (In (category ++ ":" ++ keyword) (extract_keywords text)
     <-> contains keyword (normalised_lower text) = true).
Proof.
  intros text category keyword keywords Htext Hcat Hk.
  unfold extract_keywords, list_of_set, normalised_lower.
  destruct text as [|c text]; [congruence|]. cbv zeta.
  rewrite nodup_In. split.
  - intros H. apply found_keywords_inv in H
      as [(category' & keywords' & keyword' & Hcat' & Hk' & Hc & Heq)|[(a & Heq)|[Heq|Heq]]].
    + unfold all_keywords in Hcat, Hcat'. cbn [In] in Hcat, Hcat'.
      repeat match goal with
             | H : _ \/ _ |- _ => destruct H as [H|H]
             | H : (_, _) = (_, _) |- _ => injection H as <- <-
             | H : False |- _ => destruct H
             end;
        first [ discriminate Heq
              | apply append_inj_l with (p := "urgency:") in Heq
              | apply append_inj_l with (p := "financial:") in Heq
              | apply append_inj_l with (p := "meeting:") in Heq
              | apply append_inj_l with (p := "work:") in Heq
              | apply append_inj_l with (p := "personal:") in Heq
              | apply append_inj_l with (p := "support:") in Heq ];
        now subst.
    + unfold all_keywords in Hcat. cbn [In] in Hcat.
      repeat match goal with
             | H : _ \/ _ |- _ => destruct H as [H|H]
             | H : (_, _) = (_, _) |- _ => injection H as <- <-
             | H : False |- _ => destruct H
             end; discriminate Heq.
    + unfold all_keywords in Hcat. cbn [In] in Hcat.
      repeat match goal with
             | H : _ \/ _ |- _ => destruct H as [H|H]
             | H : (_, _) = (_, _) |- _ => injection H as <- <-
             | H : False |- _ => destruct H
             end; discriminate Heq.
    + unfold all_keywords in Hcat. cbn [In] in Hcat.
      repeat match goal with
             | H : _ \/ _ |- _ => destruct H as [H|H]
             | H : (_, _) = (_, _) |- _ => injection H as <- <-
             | H : False |- _ => destruct H
             end; discriminate Heq.
  - intros Hc. eapply tagged_keyword_found; eassumption.
Qed.

Lemma tagged_keyword_iff_substring_witness :
  In "meeting:call" (extract_keywords "Please recall the parcel")
  <-> contains "call" (normalised_lower "Please recall the parcel") = true.
Proof.
  apply (tagged_keyword_iff_substring "Please recall the parcel" "meeting" "call"
           meeting_keywords).
  - discriminate.
  - unfold all_keywords. cbn [In]. auto.
  - unfold meeting_keywords. cbn [In]. auto.
Defined.

(** ** [classify_with_openai] *)

Section RemoteReplies.

Variable chat_create : string -> outcome (list (option string)).
Variable json_loads : string -> outcome pyval.

(** X9: on every input the adapter returns a value, after one request to
    the service: no exception of the service call, of the parser or of the
    validation escapes, and nothing is tried twice. *)
Theorem adapter_always_answers (redacted_content : string)
  (keywords : list string) (log : list event) :
  exists v : pyval,
    classify_with_openai chat_create json_loads redacted_content keywords log
    = (Ok v, (log ++ [RemoteCall redacted_content keywords;
                      ServiceRequest (build_prompt redacted_content keywords)])%list).
Proof. rewrite classify_with_openai_run. eexists. reflexivity. Qed.

End RemoteReplies.

(** X11: the answer of the adapter does not depend on [json.loads].  The
    [await] raises before the reply is read, so the inner [try] block, which
    strips the code fence, parses the reply, looks for the four fields and
    holds the 0.3 fallback, is never reached; the 0.3 fallback is never
    returned. *)
Theorem parser_is_never_reached :
  forall (chat_create : string -> outcome (list (option string)))
         (json_loads json_loads' : string -> outcome pyval)
         (redacted_content : string) (keywords : list string) (log : list event),
    classify_with_openai chat_create json_loads redacted_content keywords log
    = classify_with_openai chat_create json_loads' redacted_content keywords log
    /\ (forall cause : string,
          fst (classify_with_openai chat_create json_loads redacted_content
                 keywords log)
          <> Ok (fallback 0.3 ("OpenAI response parsing failed: " ++ cause))).
Proof.
  intros chat_create json_loads json_loads' redacted_content keywords log.
  rewrite !classify_with_openai_run. split; [reflexivity|].
  intros cause H. cbn in H. discriminate H.
Qed.

(** ** [classify_email] *)

Lemma some_eq_ok {A : Type} (a b : A) : Ok a = Ok b -> a = b.
Proof. congruence. Qed.

Section OrchestratorRuns.

Variable chat_create : string -> outcome (list (option string)).
Variable json_loads : string -> outcome pyval.

(** The run on the remote path, from any log. *)
Lemma classify_email_remote_run (email : email_data) (log : list event) :
  local_result_of email = None ->
  exists v0 : pyval,
    fst (classify_with_openai chat_create json_loads
           (redact_pii (Some (full_content_of email)))
           (extract_keywords (full_content_of email)) log) = Ok v0
    /\ classify_email chat_create json_loads email log
       = (obind (py_setitem v0 "method" (PStr "openai_api"))
                (fun o => py_setitem o "privacy_protected" (PBool true)),
          (log ++ remote_path_log email)%list).
Proof.
  intros Hnone.
  destruct (classify_email_cases chat_create json_loads email log)
    as [(r & Hr & _)|(_ & Hrun)]; [congruence|].
  rewrite Hrun. unfold escalate, bind. cbv zeta.
  rewrite classify_with_openai_run. cbn [fst].
  match goal with |- context [py_setitem ?v "method" _] => exists v end.
  split; [reflexivity|]. unfold lift, ret, remote_path_log.
  destruct (py_setitem _ "method" _) as [o|e]; cbn [obind]; [|reflexivity].
  destruct (py_setitem o _ _); reflexivity.
Qed.

(** X10: when no rule fires and the service call raises, [classify_email]
    returns the fallback other, medium, 0.2, its reasoning ending with the
    message of the exception, tagged as a remote result. *)
Theorem failed_service_gives_tagged_fallback (email : email_data) (e : exn) :
  local_result_of email = None ->
  chat_create (build_prompt (redact_pii (Some (full_content_of email)))
                            (extract_keywords (full_content_of email))) = Raise e ->
  fst (classify_email chat_create json_loads email [])
  = Ok (PDict [("category", PStr "other"); ("priority", PStr "medium");
               ("confidence", PFloat 0.2);
               ("reasoning",
                PStr ("OpenAI classification failed: " ++ exn_message e));
               ("method", PStr "openai_api");
               ("privacy_protected", PBool true)]).
Proof.
  intros Hnone Hcall.
  destruct (classify_email_remote_run email [] Hnone) as (v0 & Hv0 & Hrun).
  rewrite Hrun. cbn [fst].
  rewrite classify_with_openai_run in Hv0. cbn [fst] in Hv0.
  unfold call_failure in Hv0. rewrite Hcall in Hv0.
  apply some_eq_ok in Hv0. subst v0. reflexivity.
Qed.

(** X12: when no rule fires, [classify_email] returns the fallback other,
    medium, 0.2, tagged as a remote result, whatever the service does: its
    reasoning ends with the message of the exception of the call or, when
    the call returned a completion, with that of the [TypeError] of the
    [await]. *)
Theorem remote_path_always_gives_fallback (email : email_data) (log : list event) :
  local_result_of email = None ->
  fst (classify_email chat_create json_loads email log)
  = Ok (tagged_fallback
          (exn_message
             (call_failure chat_create (redact_pii (Some (full_content_of email)))
                           (extract_keywords (full_content_of email))))).
Proof.
  intros Hnone.
  destruct (classify_email_remote_run email log Hnone) as (v0 & Hv0 & Hrun).
  rewrite Hrun. cbn [fst].
  rewrite classify_with_openai_run in Hv0. cbn [fst] in Hv0.
  apply some_eq_ok in Hv0. subst v0. reflexivity.
Qed.

(** X13: whatever the service replies, the category of a result of
    [classify_email] is one of the ten categories of the specification or
    [urgent]: a local result has the category of its rule, and on the
    remote path the reply is never read, so the category is [other]. *)
Theorem classify_email_category_domain (email : email_data)
  (log log' : list event) (v : pyval) :
  classify_email chat_create json_loads email log = (Ok v, log') ->
  exists c : string,
    py_getitem v "category" = Ok (PStr c)
    /\ In c (category_domain ++ ["urgent"])%list.
Proof.
  intros Hrun.
  destruct (classify_email_cases chat_create json_loads email log)
    as [(r & Hr & Hrun')|(Hnone & _)].
  - rewrite Hrun' in Hrun. injection Hrun as <- _. exists (category r).
    split; [reflexivity|].
    unfold local_result_of in Hr. rule_cases Hr; cbn; auto 15.
  - pose proof (remote_path_always_gives_fallback email log Hnone) as Hfst.
    rewrite Hrun in Hfst. cbn [fst] in Hfst. apply some_eq_ok in Hfst. subst v.
    exists "other". split; [reflexivity|]. cbn. auto 15.
Qed.

(** X23: [classify_email] raises no exception: a local result is returned
    as it is, and on the remote path the adapter has turned every failure,
    of the service call or of the [await], into a fallback dict, which the
    two tags can be written to. *)
Theorem classify_email_never_raises (email : email_data) (log : list event) :
  exists (v : pyval) (log' : list event),
    classify_email chat_create json_loads email log = (Ok v, log').
Proof.
  destruct (classify_email_cases chat_create json_loads email log)
    as [(r & _ & Hrun)|(Hnone & _)].
  - rewrite Hrun. eexists. eexists. reflexivity.
  - destruct (classify_email_remote_run email log Hnone) as (v0 & Hv0 & Hrun).
    rewrite Hrun.
    rewrite classify_with_openai_run in Hv0. cbn [fst] in Hv0.
    apply some_eq_ok in Hv0. subst v0. eexists. eexists. reflexivity.
Qed.

(** X15: a result that [classify_email] returns carries
    [privacy_protected = True] and the [method] of its path; on the remote
    path both overwrite what the reply may have held under these keys. *)
Theorem result_is_always_tagged (email : email_data) (log log' : list event)
  (v : pyval) :
  classify_email chat_create json_loads email log = (Ok v, log') ->
  py_getitem v "privacy_protected" = Ok (PBool true)
  /\ py_getitem v "method" = Ok (PStr (method_of email)).
Proof.
  intros Hrun. unfold method_of.
  destruct (classify_email_cases chat_create json_loads email log)
    as [(r & Hr & Hrun')|(Hnone & _)].
  - rewrite Hrun' in Hrun. injection Hrun as <- _. rewrite Hr.
    split; reflexivity.
  - destruct (classify_email_remote_run email log Hnone) as (v0 & _ & Hrun').
    rewrite Hrun' in Hrun. injection Hrun as Hv _. rewrite Hnone.
    destruct v0; try discriminate Hv. cbn in Hv. injection Hv as <-.
    cbn [py_getitem]. split.
    + now rewrite dict_get_set_same.
    + rewrite dict_get_set_other, dict_get_set_same by discriminate. reflexivity.
Qed.

Lemma remote_path_sends_redacted_text_of_none (email : email_data) :
  local_result_of email = None ->
  snd (classify_email chat_create json_loads email []) = remote_path_log email.
Proof.
  intros Hnone.
  destruct (classify_email_remote_run email [] Hnone) as (v0 & _ & Hrun).
  now rewrite Hrun.
Qed.

(** X16: without a local result the call makes one call of the adapter and
    one request to the service, and what it hands over is the redacted text
    and the prompt built from it: the text of the e-mail reaches them
    through [redact_pii] only. *)
Theorem remote_path_sends_redacted_text (email : email_data) :
  local_result_of email = None ->
  snd (classify_email chat_create json_loads email []) = remote_path_log email.
Proof.
  exact (remote_path_sends_redacted_text_of_none email).
Qed.

End OrchestratorRuns.

Lemma failed_service_gives_tagged_fallback_witness :
  fst (classify_email unreachable_service sample_json_loads plain_email [])
  = Ok (PDict [("category", PStr "other"); ("priority", PStr "medium");
               ("confidence", PFloat 0.2);
               ("reasoning",
                PStr ("OpenAI classification failed: " ++ "Connection error."));
               ("method", PStr "openai_api");
               ("privacy_protected", PBool true)]).
Proof.
  apply (failed_service_gives_tagged_fallback unreachable_service sample_json_loads
           plain_email (Exn ServiceError "Connection error."));
    vm_compute; reflexivity.
Defined.

Lemma remote_path_always_gives_fallback_witness :
  fst (classify_email newsletter_service sample_json_loads plain_email [])
  = Ok (tagged_fallback "object ChatCompletion can't be used in 'await' expression").
Proof.
  apply (remote_path_always_gives_fallback newsletter_service sample_json_loads
           plain_email []).
  vm_compute. reflexivity.
Defined.

Lemma classify_email_category_domain_witness :
  exists c : string,
    py_getitem
      (tagged_fallback "object ChatCompletion can't be used in 'await' expression")
      "category" = Ok (PStr c)
    /\ In c (category_domain ++ ["urgent"])%list.
Proof.
  apply (classify_email_category_domain newsletter_service sample_json_loads
           plain_email [] (remote_path_log plain_email)).
  vm_compute. reflexivity.
Defined.

Lemma result_is_always_tagged_witness :
  py_getitem
    (tagged_fallback "object ChatCompletion can't be used in 'await' expression")
    "privacy_protected" = Ok (PBool true)
  /\ py_getitem
       (tagged_fallback "object ChatCompletion can't be used in 'await' expression")
       "method" = Ok (PStr (method_of plain_email)).
Proof.
  apply (result_is_always_tagged newsletter_service sample_json_loads plain_email
           [] (remote_path_log plain_email)).
  vm_compute. reflexivity.
Defined.

Lemma remote_path_sends_redacted_text_witness :
  snd (classify_email unreachable_service sample_json_loads plain_email [])
  = remote_path_log plain_email.
Proof.
  apply (remote_path_sends_redacted_text unreachable_service sample_json_loads
           plain_email).
  vm_compute. reflexivity.
Defined.

(** *** The size of the prompt *)

Lemma take_length_le (n : nat) (s : string) : String.length (take n s) <= n.
Proof.
  revert s. induction n as [|n IH]; intros [|c s]; cbn; try lia.
  specialize (IH s). lia.
Qed.

Lemma join_length_le (sep : string) (m : nat) (l : list string) :
  (forall x, In x l -> String.length x <= m) ->
  String.length (join sep l) <= List.length l * (m + String.length sep).
Proof.
  induction l as [|x l IH]; intros Hall; [cbn; lia|].
  assert (Hx : String.length x <= m) by (apply Hall; now left).
  assert (IH' : String.length (join sep l)
                <= List.length l * (m + String.length sep))
    by (apply IH; intros y Hy; apply Hall; now right).
  destruct l as [|y l]; [cbn [join List.length]; lia|].
  change (join sep (x :: y :: l)) with (x ++ sep ++ join sep (y :: l)).
  rewrite !length_append. cbn [List.length] in *. lia.
Qed.

Lemma in_firstn {A : Type} (n : nat) (l : list A) (x : A) :
  In x (firstn n l) -> In x l.
Proof.
  revert l. induction n as [|n IH]; intros [|y l] H; cbn in *; try tauto.
  destruct H as [H|H]; [now left | right; now apply IH].
Qed.

Lemma extracted_keyword_length (text kw : string) :
  In kw (extract_keywords text) -> String.length kw <= 22.
Proof.
  intros H. apply extract_keywords_in_vocabulary in H.
  assert (Hall : forallb (fun kw => Nat.leb (String.length kw) 22) vocabulary = true)
    by (vm_compute; reflexivity).
  rewrite forallb_forall in Hall. apply Nat.leb_le. now apply Hall.
Qed.

(** X17: whatever the e-mail, a prompt sent to the service is at most
    [prompt_limit] = 2488 characters long: the fixed text, at most 1000
    characters of redacted content and at most ten keywords. *)
Theorem prompt_is_bounded :
  prompt_limit = 2488
  /\ forall (chat_create : string -> outcome (list (option string)))
            (json_loads : string -> outcome pyval)
            (email : email_data) (prompt : string),
       In (ServiceRequest prompt)
          (snd (classify_email chat_create json_loads email [])) ->
       String.length prompt <= prompt_limit.
Proof.
  split; [vm_compute; reflexivity|].
  intros chat_create json_loads email prompt Hin.
  destruct (classify_email_cases chat_create json_loads email [])
    as [(r & _ & Hrun)|(Hnone & _)].
  - rewrite Hrun in Hin. destruct Hin.
  - rewrite (remote_path_sends_redacted_text_of_none chat_create json_loads email Hnone)
      in Hin.
    unfold remote_path_log in Hin. cbv zeta in Hin. cbn [In] in Hin.
    destruct Hin as [Hin|[Hin|[]]]; [discriminate Hin|].
    assert (Hprompt :
      prompt = build_prompt (redact_pii (Some (full_content_of email)))
                            (extract_keywords (full_content_of email)))
      by congruence.
    rewrite Hprompt. clear Hin Hprompt.
    unfold build_prompt, prompt_limit. cbv zeta. rewrite !length_append.
    pose proof (take_length_le 1000 (redact_pii (Some (full_content_of email)))).
    assert (Hsum :
      String.length
        (join ", " (firstn 10 (extract_keywords (full_content_of email))))
      <= 10 * (22 + 2)).
    { etransitivity.
      - apply join_length_le with (m := 22). intros x Hx.
        apply in_firstn in Hx. eapply extracted_keyword_length. eassumption.
      - cbn [String.length].
        pose proof (firstn_le_length 10 (extract_keywords (full_content_of email))).
        nia. }
    lia.
Qed.

Lemma prompt_is_bounded_witness :
  String.length (build_prompt (redact_pii (Some (full_content_of plain_email)))
                              (extract_keywords (full_content_of plain_email)))
  <= prompt_limit.
Proof.
  apply (proj2 prompt_is_bounded unreachable_service sample_json_loads plain_email).
  vm_compute. right. left. reflexivity.
Defined.

(** *** Code fences around the reply *)

Lemma prefix_cons (a b : ascii) (s1 s2 : string) :
  String.prefix (String a s1) (String b s2) = Ascii.eqb a b && String.prefix s1 s2.
Proof.
  cbn [String.prefix]. destruct (ascii_dec a b) as [->|Hne].
  - now rewrite Ascii.eqb_refl.
  - apply Ascii.eqb_neq in Hne. now rewrite Hne.
Qed.

Lemma prefix_append (sep s : string) : String.prefix sep (sep ++ s) = true.
Proof.
  induction sep as [|c sep IH]; [now destruct s|].
  cbn [append]. rewrite prefix_cons, Ascii.eqb_refl. exact IH.
Qed.

Lemma drop_append (sep s : string) : drop (String.length sep) (sep ++ s) = s.
Proof.
  induction sep as [|c sep IH]; [now destruct s|]. exact IH.
Qed.

Lemma backtick_free_cons (c : ascii) (s : string) :
  contains "`" (String c s) = false ->
  Ascii.eqb "`" c = false /\ contains "`" s = false.
Proof.
  cbn [contains]. rewrite prefix_cons.
  destruct (Ascii.eqb "`" c); cbn [andb].
  - destruct s; discriminate.
  - auto.
Qed.

(** Below, a mark is a text that begins with a backtick. *)

Lemma contains_mark (mark_tail pre rest : string) :
  contains (String "`" mark_tail) (pre ++ String "`" mark_tail ++ rest) = true.
Proof.
  induction pre as [|c pre IH]; cbn [append contains].
  - now rewrite prefix_cons, Ascii.eqb_refl, prefix_append.
  - cbn [append] in IH. rewrite IH. now destruct (String.prefix _ _).
Qed.

Lemma after_first_mark (mark_tail pre rest : string) :
  contains "`" pre = false ->
  after_first (String "`" mark_tail) (pre ++ String "`" mark_tail ++ rest)
  = Some rest.
Proof.
  induction pre as [|c pre IH]; intros Hfree; cbn [append after_first].
  - rewrite prefix_cons, Ascii.eqb_refl, prefix_append. cbn [andb String.length drop].
    now rewrite drop_append.
  - apply backtick_free_cons in Hfree as [Hc Hfree].
    rewrite prefix_cons, Hc. cbn [andb]. cbn [append] in IH. now apply IH.
Qed.

Lemma before_first_mark (mark_tail body rest : string) :
  contains "`" body = false ->
  before_first (String "`" mark_tail) (body ++ rest)
  = body ++ before_first (String "`" mark_tail) rest.
Proof.
  induction body as [|c body IH]; intros Hfree; [reflexivity|].
  apply backtick_free_cons in Hfree as [Hc Hfree].
  cbn [append before_first]. rewrite prefix_cons, Hc. cbn [andb].
  now rewrite IH.
Qed.

Lemma prefix_empty (s : string) : String.prefix "" s = true.
Proof. now destruct s. Qed.

Lemma closing_fence (rest : string) :
  String.prefix "`" rest = false ->
  before_first fence (before_first json_fence (fence ++ rest)) = "".
Proof.
  intros Hrest. unfold fence, json_fence. cbn [append].
  assert (Hinner : forall tail, String.prefix (String "`" tail) rest = false).
  { intros tail. destruct rest as [|c rest]; [reflexivity|].
    rewrite prefix_cons in *. rewrite prefix_empty, andb_true_r in Hrest.
    now rewrite Hrest. }
  cbn [before_first]. rewrite !prefix_cons, !Ascii.eqb_refl. cbn [andb].
  destruct (String.prefix "json" rest); [reflexivity|].
  rewrite !Hinner. cbn [before_first].
  rewrite !prefix_cons, !Ascii.eqb_refl, prefix_empty. reflexivity.
Qed.

(** X18: a reply of the form [PRE ```json BODY ``` REST] is unwrapped to
    [BODY], provided [PRE] and [BODY] hold no backtick and [REST] does not
    begin with one; text before and after the fenced block is dropped. *)
Theorem fenced_reply_is_unwrapped :
  forall pre body rest : string,
    contains "`" pre = false ->
    contains "`" body = false ->
    String.prefix "`" rest = false ->
    strip_code_fence (pre ++ json_fence ++ body ++ fence ++ rest) = Ok body.
Proof.
  intros pre body rest Hpre Hbody Hrest.
  pose proof (closing_fence rest Hrest) as Hclose.
  unfold strip_code_fence, between_fences, split_second.
  unfold json_fence, fence in *.
  rewrite (contains_mark "``json").
  rewrite (after_first_mark "``json") by assumption. cbn [option_map].
  rewrite (before_first_mark "``json") by assumption.
  rewrite (before_first_mark "``") by assumption.
  rewrite Hclose. now rewrite append_empty_r.
Qed.

Lemma fenced_reply_is_unwrapped_witness :
  strip_code_fence ("Here you go: " ++ json_fence ++ "null" ++ fence ++ " Bye.")
  = Ok "null".
Proof.
  apply fenced_reply_is_unwrapped; reflexivity.
Defined.

(** ** [redact_pii] *)

(** X19: in a text of ASCII characters the pattern for parenthesised phone
    numbers and the pattern for international ones match only directly
    behind a letter, a digit or an underscore: they begin with a word
    boundary followed by a character that is no word character, so they do
    not match at the start of the text or behind a space. *)
Theorem bracketed_phone_patterns_need_word_before :
  forall (prev : option ascii) (s : string),
    ascii_before prev = true ->
    is_ascii s = true ->
    word_before prev = false ->
    Re.match_at Pat.phone_paren prev s = None
    /\ Re.match_at Pat.phone_intl prev s = None.
Proof.
  intros prev s _ _ Hprev.
  assert (Hb : Re.at_boundary prev s
               = match s with String c _ => is_word c | EmptyString => false end).
  { unfold Re.at_boundary, word_before in *. now rewrite Hprev. }
  split; unfold Re.match_at, Pat.phone_paren, Pat.phone_intl;
    cbn [Seq rmatch Chr]; rewrite Hb;
    (destruct s as [|c s]; [reflexivity|]);
    (destruct (is_word c) eqn:Hw; [|reflexivity]);
    match goal with
    | |- context [Ascii.eqb ?x c] =>
        destruct (Ascii.eqb x c) eqn:He; [|reflexivity];
        apply Ascii.eqb_eq in He; subst c; discriminate Hw
    end.
Qed.

Lemma bracketed_phone_patterns_need_word_before_witness :
  Re.match_at Pat.phone_paren (Some " "%char) "(123) 456-7890" = None
  /\ Re.match_at Pat.phone_intl (Some " "%char) "(123) 456-7890" = None.
Proof.
  apply bracketed_phone_patterns_need_word_before; reflexivity.
Defined.

(** *** Text that no pattern can match *)

Lemma in_all_ascii (c : ascii) : In c all_ascii.
Proof.
  unfold all_ascii. apply in_map_iff. exists (nat_of_ascii c).
  split; [apply ascii_nat_embedding|].
  apply in_seq. pose proof (nat_ascii_bounded c). lia.
Qed.

Lemma class_within_spec (p P : ascii -> bool) (c : ascii) :
  class_within p P = true -> p c = true -> P c = true.
Proof.
  unfold class_within. rewrite forallb_forall. intros Hall Hp.
  specialize (Hall c (in_all_ascii c)). now rewrite Hp in Hall.
Qed.

Lemma has_append (P : ascii -> bool) (u s : string) :
  has P (u ++ s) = has P u || has P s.
Proof.
  induction u as [|c u IH]; [reflexivity|].
  cbn [append has]. now rewrite IH, orb_assoc.
Qed.

Section Needed.

Variable P : ascii -> bool.

(** What a match consumes holds a character that the pattern needs. *)
Lemma rmatch_consumes_needed (r : regex) :
  forall (prev : option ascii) (s : string) (k : Re.cont) res,
    Re.rmatch r prev s k = Some res ->
    exists p' u s',
      s = u ++ s' /\ k p' s' = Some res /\ (needs P r = true -> has P u = true).
Proof.
  induction r as [|p|r1 IH1 r2 IH2|r1 IH1 r2 IH2|r' IH|]; intros prev s k res H;
    cbn [Re.rmatch] in H; cbn [needs].
  - exists prev, "", s. repeat split; [assumption | discriminate].
  - destruct s as [|c s]; [discriminate H|].
    destruct (p c) eqn:Hp; [|discriminate H].
    exists (Some c), (String c ""), s. repeat split; [assumption|].
    intros Hn. cbn [has]. now rewrite (class_within_spec p P c Hn Hp).
  - apply IH1 in H as (p1 & u1 & s1 & -> & H & Hn1).
    apply IH2 in H as (p2 & u2 & s2 & -> & H & Hn2).
    exists p2, (u1 ++ u2), s2. rewrite append_assoc. repeat split; [assumption|].
    intros Hn. rewrite has_append. apply orb_true_iff in Hn as [Hn|Hn].
    + now rewrite Hn1.
    + rewrite Hn2 by assumption. apply orb_true_r.
  - destruct (Re.rmatch r1 prev s k) eqn:H1.
    + injection H as <-. apply IH1 in H1 as (p1 & u1 & s1 & -> & H & Hn1).
      exists p1, u1, s1. repeat split; [assumption|].
      intros Hn. apply andb_true_iff in Hn as [Hn _]. now apply Hn1.
    + apply IH2 in H as (p2 & u2 & s2 & -> & H & Hn2).
      exists p2, u2, s2. repeat split; [assumption|].
      intros Hn. apply andb_true_iff in Hn as [_ Hn]. now apply Hn2.
  - remember (String.length s) as n eqn:Hlen. clear Hlen.
    revert prev s H. induction n as [|n IHn]; intros prev s H.
    + exists prev, "", s. repeat split; [assumption | discriminate].
    + match type of H with
      | match ?m with _ => _ end = _ => destruct m eqn:Hbody
      end.
      * injection H as <-.
        apply IH in Hbody as (p1 & u1 & s1 & -> & Hk & _).
        destruct (Nat.ltb _ _); [|discriminate Hk].
        apply IHn in Hk as (p2 & u2 & s2 & -> & Hk & _).
        exists p2, (u1 ++ u2), s2. rewrite append_assoc.
        repeat split; [assumption | discriminate].
      * exists prev, "", s. repeat split; [assumption | discriminate].
  - destruct (Re.at_boundary prev s); [|discriminate H].
    exists prev, "", s. repeat split; [assumption | discriminate].
Qed.

Lemma search_needs (r : regex) :
  needs P r = true ->
  forall (s : string) (prev : option ascii),
    has P s = false -> Re.search_from r prev s = false.
Proof.
  intros Hn.
  assert (Hat : forall s prev, has P s = false -> Re.match_at r prev s = None).
  { intros s prev Hs. destruct (Re.match_at r prev s) as [[p' rest]|] eqn:Hm;
      [|reflexivity].
    apply rmatch_consumes_needed in Hm as (p1 & u & s1 & -> & _ & Hu).
    rewrite has_append, (Hu Hn) in Hs. discriminate Hs. }
  induction s as [|c s IH]; intros prev Hs; cbn [Re.search_from];
    rewrite (Hat _ _ Hs); [reflexivity|].
  cbn [has] in Hs. apply orb_false_iff in Hs as [_ Hs]. now apply IH.
Qed.

End Needed.

(** X20: a text of ASCII characters that holds no digit, no [@], no colon
    and no capital letter is returned by [redact_pii] as it is. *)
Theorem plain_text_is_not_redacted :
  forall text : string,
    is_ascii text = true ->
    has is_digit text = false ->
    has (Ascii.eqb "@") text = false ->
    has (Ascii.eqb ":") text = false ->
    has is_upper text = false ->
    redact_pii (Some text) = text.
Proof.
  intros text _ Hdigit Hat Hcolon Hupper.
  destruct text as [|c text]; [reflexivity|].
  rewrite redact_pii_nonempty. apply redact_in_sequence_no_residue.
  unfold no_residue, spec_redaction_steps, Re.search. cbn [forallb fst].
  rewrite (search_needs (Ascii.eqb "@") Pat.email) by (vm_compute; reflexivity || assumption).
  rewrite (search_needs is_digit Pat.phone_dashed) by (vm_compute; reflexivity || assumption).
  rewrite (search_needs is_digit Pat.phone_paren) by (vm_compute; reflexivity || assumption).
  rewrite (search_needs is_digit Pat.phone_intl) by (vm_compute; reflexivity || assumption).
  rewrite (search_needs (Ascii.eqb ":") Pat.url) by (vm_compute; reflexivity || assumption).
  rewrite (search_needs is_digit Pat.card) by (vm_compute; reflexivity || assumption).
  rewrite (search_needs is_digit Pat.ssn) by (vm_compute; reflexivity || assumption).
  rewrite (search_needs is_upper Pat.name) by (vm_compute; reflexivity || assumption).
  rewrite (search_needs is_digit Pat.address) by (vm_compute; reflexivity || assumption).
  reflexivity.
Qed.

Lemma plain_text_is_not_redacted_witness :
  redact_pii (Some "see you at lunch, bring the slides")
  = "see you at lunch, bring the slides".
Proof.
  apply plain_text_is_not_redacted; reflexivity.
Defined.

(** ** The passes of [redact_pii]

    *** The matcher finds the matches *)

Lemma last_char_append (prev : option ascii) (a b : string) :
  last_char prev (a ++ b) = last_char (last_char prev a) b.
Proof. revert prev. induction a as [|c a IH]; intros prev; cbn; [reflexivity | apply IH]. Qed.

Lemma rmatch_sound (r : regex) :
  forall (prev : option ascii) (s : string) (k : Re.cont) res,
    Re.rmatch r prev s k = Some res ->
    exists m rest,
      s = m ++ rest /\ matches r prev m rest /\ k (last_char prev m) rest = Some res.
Proof.
  induction r as [|p|r1 IH1 r2 IH2|r1 IH1 r2 IH2|r' IH|]; intros prev s k res H;
    cbn [Re.rmatch] in H.
  - exists "", s. repeat split; [constructor | assumption].
  - destruct s as [|c s]; [discriminate H|].
    destruct (p c) eqn:Hp; [|discriminate H].
    exists (String c ""), s. repeat split; [now constructor | assumption].
  - apply IH1 in H as (m1 & s1 & -> & Hm1 & H).
    apply IH2 in H as (m2 & s2 & -> & Hm2 & H).
    exists (m1 ++ m2), s2. rewrite append_assoc, last_char_append.
    repeat split; [now constructor | assumption].
  - destruct (Re.rmatch r1 prev s k) eqn:H1.
    + injection H as <-. apply IH1 in H1 as (m & rest & -> & Hm & Hk).
      exists m, rest. repeat split; [now apply matches_alt_l | assumption].
    + apply IH2 in H as (m & rest & -> & Hm & Hk).
      exists m, rest. repeat split; [now apply matches_alt_r | assumption].
  - remember (String.length s) as n eqn:Hn. clear Hn.
    revert prev s H. induction n as [|n IHn]; intros prev s H.
    + exists "", s. repeat split; [constructor | assumption].
    + match type of H with
      | match ?m with _ => _ end = _ => destruct m eqn:Hbody
      end.
      * injection H as <-.
        apply IH in Hbody as (m1 & s1 & -> & Hm1 & Hk).
        destruct (Nat.ltb _ _) eqn:Hlt; [|discriminate Hk].
        apply IHn in Hk as (m2 & s2 & -> & Hm2 & Hk).
        exists (m1 ++ m2), s2. rewrite append_assoc, last_char_append.
        repeat split; [|assumption].
        apply matches_star_more; try assumption.
        intros ->. cbn in Hlt. apply Nat.ltb_lt in Hlt. lia.
      * exists "", s. repeat split; [constructor | assumption].
  - destruct (Re.at_boundary prev s) eqn:Hb; [|discriminate H].
    exists "", s. repeat split; [now constructor | assumption].
Qed.

Lemma rmatch_complete (r : regex) :
  forall (prev : option ascii) (s : string) (k : Re.cont),
    Re.rmatch r prev s k = None ->
    forall m rest, s = m ++ rest -> matches r prev m rest ->
                   k (last_char prev m) rest = None.
Proof.
  induction r as [|p|r1 IH1 r2 IH2|r1 IH1 r2 IH2|r' IH|]; intros prev s k H m rest Hs Hm;
    cbn [Re.rmatch] in H.
  - inversion Hm; subst. exact H.
  - inversion Hm; subst. cbn in H.
    match goal with Hp : p _ = true |- _ => rewrite Hp in H end. exact H.
  - inversion Hm; subst. rewrite last_char_append.
    eapply IH2; [|reflexivity|eassumption].
    eapply (IH1 _ _ _ H); [|eassumption]. apply append_assoc.
  - destruct (Re.rmatch r1 prev s k) eqn:H1; [discriminate H|].
    inversion Hm; subst.
    + eapply IH1; [exact H1|reflexivity|assumption].
    + eapply IH2; [exact H|reflexivity|assumption].
  - remember (String.length s) as n eqn:Hn.
    assert (Hle : String.length s <= n) by lia. clear Hn.
    revert prev s m rest H Hs Hm Hle.
    induction n as [|n IHn]; intros prev s m rest H Hs Hm Hle.
    + destruct s; [|cbn in Hle; lia].
      destruct m; [|discriminate Hs]. cbn in Hs. subst rest. exact H.
    + match type of H with
      | match ?b with _ => _ end = _ => destruct b eqn:Hbody
      end; [discriminate H|].
      inversion Hm; subst.
      * exact H.
      * rewrite last_char_append.
        match goal with
        | H1 : matches r' prev ?m1 (?m2 ++ rest) |- _ =>
            pose proof (IH _ _ _ Hbody m1 (m2 ++ rest) (append_assoc _ _ _) H1) as Hk
        end.
        cbv beta in Hk.
        match type of Hk with
        | (if ?c then _ else _) = None => destruct c eqn:Hlt
        end.
        -- apply Nat.ltb_lt in Hlt.
           eapply IHn; [exact Hk|reflexivity|eassumption|].
           rewrite !length_append in *. lia.
        -- apply Nat.ltb_ge in Hlt. rewrite !length_append in Hlt.
           match goal with Hne : ?m1 <> "" |- _ => destruct m1; [now elim Hne|] end.
           cbn in Hlt. lia.
  - inversion Hm; subst. cbn [append] in H.
    match goal with Hb : Re.at_boundary _ _ = true |- _ => rewrite Hb in H end.
    exact H.
Qed.

Lemma match_at_sound (r : regex) (prev p' : option ascii) (s rest : string) :
  Re.match_at r prev s = Some (p', rest) ->
  exists m, s = m ++ rest /\ matches r prev m rest /\ p' = last_char prev m.
Proof.
  intros H. apply rmatch_sound in H as (m & rest' & -> & Hm & Hk).
  injection Hk as <- <-. now exists m.
Qed.

Lemma match_at_complete (r : regex) (prev : option ascii) (m rest : string) :
  Re.match_at r prev (m ++ rest) = None -> ~ matches r prev m rest.
Proof.
  intros H Hm.
  pose proof (rmatch_complete r prev (m ++ rest) _ H m rest eq_refl Hm) as Hk.
  discriminate Hk.
Qed.

Lemma matches_needs (P : ascii -> bool) (r : regex) (prev : option ascii)
  (m rest : string) :
  matches r prev m rest -> needs P r = true -> has P m = true.
Proof.
  induction 1 as [| p prev c rest Hp | r1 r2 prev m1 m2 rest _ IH1 _ IH2
                  | r1 r2 prev m rest _ IH | r1 r2 prev m rest _ IH
                  | | | ]; cbn [needs]; intros Hn; try discriminate Hn.
  - cbn [has]. now rewrite (class_within_spec p P c Hn Hp).
  - rewrite has_append. apply orb_true_iff in Hn as [Hn|Hn].
    + now rewrite IH1.
    + rewrite IH2 by assumption. apply orb_true_r.
  - apply andb_true_iff in Hn as [Hn _]. now apply IH.
  - apply andb_true_iff in Hn as [_ Hn]. now apply IH.
Qed.

(** *** One pass *)

Lemma has_any_char (m : string) : has any_char m = true -> m <> "".
Proof. destruct m; [discriminate | discriminate]. Qed.

Lemma sub_loop_redacts (r : regex) (token : string) :
  needs any_char r = true ->
  forall (fuel : nat) (prev : option ascii) (s : string),
    String.length s < fuel ->
    redacts r token prev s (Re.sub_loop r token fuel prev s).
Proof.
  intros Hn. induction fuel as [|fuel IH]; intros prev s Hfuel; [lia|].
  cbn [Re.sub_loop].
  destruct (Re.match_at r prev s) as [[p' rest]|] eqn:Hm.
  - apply match_at_sound in Hm as (m & -> & Hm & ->).
    pose proof (has_any_char m (matches_needs any_char r prev m rest Hm Hn)) as Hne.
    assert (Hlt : String.length rest < String.length (m ++ rest)).
    { rewrite length_append. destruct m; [now elim Hne | cbn; lia]. }
    apply Nat.ltb_lt in Hlt as Hltb. rewrite Hltb.
    apply redacts_hit; try assumption. apply IH. lia.
  - destruct s as [|c s].
    + apply redacts_end. now apply (match_at_complete r prev "" "").
    + apply redacts_keep.
      * intros m rest Hs. rewrite Hs in Hm. now apply match_at_complete.
      * apply IH. cbn in Hfuel. lia.
Qed.

Lemma sub_redacts (r : regex) (token s : string) :
  needs any_char r = true -> redacts r token None s (Re.sub r token s).
Proof. intros Hn. apply sub_loop_redacts; [assumption | lia]. Qed.

Lemma redact_in_sequence_redacted_by (steps : list (regex * string)) :
  forallb (fun step => needs any_char (fst step)) steps = true ->
  forall s : string,
    redacted_by steps s
      (fold_left (fun text step => Re.sub (fst step) (snd step) text) steps s).
Proof.
  induction steps as [|[r token] steps IH]; intros Hn s; cbn [fold_left fst snd].
  - constructor.
  - cbn [forallb fst] in Hn. apply andb_true_iff in Hn as [Hr Hn].
    econstructor; [now apply sub_redacts | now apply IH].
Qed.

(** C7: on an absent or empty text [redact_pii] returns the empty string;
    on any other text (of ASCII characters, for which the character classes
    of the embedding are those of [re]) its result comes from the text by
    the nine passes of the specification in their order, e-mail, the three
    phone forms, URL, card, SSN, name, address: each pass replaces what
    matches its pattern by its token and keeps a character only where no
    match of its pattern starts. *)
Theorem redact_pii_fixed_sequence :
  redact_pii None = ""
  /\ redact_pii (Some "") = ""
  /\ (forall text : string,
        is_ascii text = true -> text <> "" ->
        redacted_by spec_redaction_steps text (redact_pii (Some text))).
Proof.
  split; [reflexivity|]. split; [reflexivity|].
  intros text _ Hne. destruct text as [|c text]; [now elim Hne|].
  rewrite redact_pii_nonempty. apply redact_in_sequence_redacted_by.
  vm_compute. reflexivity.
Qed.

Lemma redact_pii_fixed_sequence_witness :
  redact_pii (Some sample_text)
  = "[NAME], [ADDRESS]; [EMAIL], [PHONE], A[PHONE], x[PHONE], [URL] [CARD], [SSN]"
  /\ redacted_by spec_redaction_steps sample_text (redact_pii (Some sample_text)).
Proof.
  split; [vm_compute; reflexivity|].
  apply (proj2 (proj2 redact_pii_fixed_sequence) sample_text);
    [vm_compute; reflexivity | discriminate].
Defined.

(** *** What a second run can change *)

Lemma count_append (P : ascii -> bool) (a b : string) :
  count P (a ++ b) = count P a + count P b.
Proof. induction a as [|c a IH]; cbn; [reflexivity | rewrite IH; lia]. Qed.

Lemma has_count (P : ascii -> bool) (s : string) :
  has P s = true -> 1 <= count P s.
Proof.
  induction s as [|c s IH]; cbn [has count]; [discriminate|].
  destruct (P c); cbn; intros H; [lia | apply IH in H; lia].
Qed.

Lemma count_zero_eq (P : ascii -> bool) (a b : string) :
  count P a < count P b -> a <> b.
Proof. intros H ->. lia. Qed.

Section Counting.

Variable P : ascii -> bool.
Variable r : regex.
Variable token : string.
Hypothesis r_needs : needs P r = true.
Hypothesis token_free : count P token = 0.

Lemma sub_loop_count (fuel : nat) :
  forall (prev : option ascii) (s : string),
    String.length s < fuel ->
    count P (Re.sub_loop r token fuel prev s) <= count P s
    /\ (Re.search_from r prev s = true ->
        count P (Re.sub_loop r token fuel prev s) < count P s).
Proof.
  induction fuel as [|fuel IH]; intros prev s Hfuel; [lia|].
  cbn [Re.sub_loop].
  destruct (Re.match_at r prev s) as [[p' rest]|] eqn:Hm.
  - apply match_at_sound in Hm as (m & -> & Hm & ->).
    pose proof (has_count P m (matches_needs P r prev m rest Hm r_needs)) as Hc.
    assert (Hlt : String.length rest < String.length (m ++ rest)).
    { rewrite length_append. destruct m; [cbn in Hc; lia | cbn; lia]. }
    apply Nat.ltb_lt in Hlt as Hltb. rewrite Hltb.
    assert (Hrest : String.length rest < fuel) by lia.
    destruct (IH (last_char prev m) rest Hrest) as [Hle _].
    rewrite !count_append, token_free. split; [lia | intros _; lia].
  - destruct s as [|c s].
    + split; [lia|]. cbn [Re.search_from]. rewrite Hm. discriminate.
    + cbn in Hfuel. assert (Hs : String.length s < fuel) by lia.
      destruct (IH (Some c) s Hs) as [Hle Hlt].
      cbn [count Re.search_from]. rewrite Hm. split; [lia|].
      intros H. apply Hlt in H. lia.
Qed.

Lemma sub_count (s : string) :
  count P (Re.sub r token s) <= count P s
  /\ (Re.search r s = true -> count P (Re.sub r token s) < count P s).
Proof. apply sub_loop_count. lia. Qed.

End Counting.

Lemma fold_sub_count (P : ascii -> bool) (steps : list (regex * string)) :
  forallb (fun step => needs P (fst step) && Nat.eqb (count P (snd step)) 0) steps
  = true ->
  forall s : string,
    count P (fold_left (fun text step => Re.sub (fst step) (snd step) text) steps s)
    <= count P s
    /\ (existsb (fun step => Re.search (fst step) s) steps = true ->
        count P (fold_left (fun text step => Re.sub (fst step) (snd step) text) steps s)
        < count P s).
Proof.
  induction steps as [|[r token] steps IH]; intros Hall s; cbn [fold_left fst snd].
  - cbn [existsb]. split; [lia | discriminate].
  - cbn [forallb fst snd] in Hall. apply andb_true_iff in Hall as [Hstep Hall].
    apply andb_true_iff in Hstep as [Hn Ht]. apply Nat.eqb_eq in Ht.
    destruct (sub_count P r token Hn Ht s) as [Hle Hlt].
    destruct (IH Hall (Re.sub r token s)) as [Hle' Hlt'].
    split; [lia|].
    cbn [existsb fst]. destruct (Re.search r s) eqn:Hsearch.
    + intros _. specialize (Hlt eq_refl). lia.
    + cbn [orb]. intros Hex.
      rewrite (sub_no_match r token s Hsearch) in *. now apply Hlt'.
Qed.

Lemma no_residue_existsb (s : string) :
  no_residue s = negb (existsb (fun step => Re.search (fst step) s) spec_redaction_steps).
Proof.
  unfold no_residue. induction spec_redaction_steps as [|step steps IH]; [reflexivity|].
  cbn [forallb existsb]. rewrite IH. now rewrite negb_orb.
Qed.

Lemma redaction_steps_shrink :
  forallb (fun step => needs outside_tokens (fst step)
                       && Nat.eqb (count outside_tokens (snd step)) 0)
          spec_redaction_steps = true.
Proof. vm_compute. reflexivity. Qed.

Lemma redact_in_sequence_count (s : string) :
  existsb (fun step => Re.search (fst step) s) spec_redaction_steps = true ->
  count outside_tokens (redact_in_sequence s) < count outside_tokens s.
Proof.
  intros Hex.
  apply (fold_sub_count outside_tokens spec_redaction_steps redaction_steps_shrink s).
  exact Hex.
Qed.

(** The fixed points of the redactor are the texts without a match. *)
Lemma redact_pii_fixed_point (s : string) :
  redact_pii (Some s) = s <-> no_residue s = true.
Proof.
  destruct s as [|c s]; [split; reflexivity|].
  rewrite redact_pii_nonempty. split.
  - intros Hfix. rewrite no_residue_existsb. apply negb_true_iff.
    destruct (existsb _ _) eqn:Hex; [|reflexivity].
    apply redact_in_sequence_count in Hex. rewrite Hfix in Hex.
    now apply Nat.lt_irrefl in Hex.
  - apply redact_in_sequence_no_residue.
Qed.

Lemma matches_avoids (P : ascii -> bool) (r : regex) (prev : option ascii)
  (m rest : string) :
  matches r prev m rest -> avoids P r = true -> has P m = false.
Proof.
  induction 1 as [| p prev c rest Hp | r1 r2 prev m1 m2 rest _ IH1 _ IH2
                  | r1 r2 prev m rest _ IH | r1 r2 prev m rest _ IH
                  | | r prev m1 m2 rest _ _ IH1 _ IH2 | ]; cbn [avoids]; intros Ha;
    try reflexivity.
  - cbn [has]. pose proof (class_within_spec p _ c Ha Hp) as Hc. cbv beta in Hc.
    apply negb_true_iff in Hc. now rewrite Hc.
  - apply andb_true_iff in Ha as [Ha1 Ha2].
    now rewrite has_append, IH1, IH2.
  - apply andb_true_iff in Ha as [Ha _]. now apply IH.
  - apply andb_true_iff in Ha as [_ Ha]. now apply IH.
  - rewrite has_append, IH1, IH2 by (cbn [avoids]; assumption). reflexivity.
Qed.

Lemma is_ascii_append (a b : string) :
  is_ascii (a ++ b) = is_ascii a && is_ascii b.
Proof. induction a as [|c a IH]; cbn; [reflexivity | now rewrite IH, andb_assoc]. Qed.

Lemma replaced_is_ascii (token : string) (ps : list piece) :
  is_ascii token = true -> is_ascii (original ps) = true ->
  is_ascii (replaced token ps) = true.
Proof.
  intros Ht. induction ps as [|[c|m] ps IH]; cbn [original replaced is_ascii]; intros H.
  - reflexivity.
  - apply andb_true_iff in H as [Hc H]. rewrite Hc. now apply IH.
  - rewrite is_ascii_append in *. apply andb_true_iff in H as [_ H].
    rewrite Ht. now apply IH.
Qed.

Lemma sub_is_ascii (r : regex) (token s : string) :
  is_ascii token = true -> is_ascii s = true -> is_ascii (Re.sub r token s) = true.
Proof.
  intros Ht Hs. destruct (sub_replaces_matches r token s) as (ps & Hor & Hre & _).
  rewrite <- Hre. apply replaced_is_ascii; [assumption | now rewrite Hor].
Qed.

Lemma fold_sub_is_ascii (steps : list (regex * string)) :
  forallb (fun step => is_ascii (snd step)) steps = true ->
  forall s : string,
    is_ascii s = true ->
    is_ascii (fold_left (fun text step => Re.sub (fst step) (snd step) text) steps s)
    = true.
Proof.
  induction steps as [|[r token] steps IH]; intros Hall s Hs; cbn [fold_left fst snd].
  - exact Hs.
  - cbn [forallb snd] in Hall. apply andb_true_iff in Hall as [Ht Hall].
    apply IH; [assumption|]. now apply sub_is_ascii.
Qed.

Lemma redact_pii_is_ascii (text : string) :
  is_ascii text = true -> is_ascii (redact_pii (Some text)) = true.
Proof.
  intros H. destruct text as [|c text]; [reflexivity|].
  rewrite redact_pii_nonempty. apply fold_sub_is_ascii; [reflexivity | exact H].
Qed.

(** C8 as stated fails: the text below is redacted to a text without
    residue, yet the token that the phone pass wrote is part of what the
    pattern of the later URL pass matches, and it is rewritten with it. *)
Lemma token_rewritten_by_url_pass :
  is_ascii "http://x.org/555-123-4567" = true
  /\ Re.sub Pat.phone_dashed "[PHONE]"
       (Re.sub Pat.email "[EMAIL]" "http://x.org/555-123-4567")
     = "http://x.org/[PHONE]"
  /\ Re.sub Pat.url "[URL]" "http://x.org/[PHONE]" = "[URL]"
  /\ redact_pii (Some "http://x.org/555-123-4567") = "[URL]"
  /\ no_residue "[URL]" = true.
Proof. repeat split; vm_compute; reflexivity. Qed.

(** C8, as the code has it.  For a text of ASCII characters, redacting the
    redacted text again changes nothing exactly when no pattern of the
    sequence matches in the redacted text.  Each of the seven tokens holds
    no match and is returned as it is.  What a pattern other than the URL
    pattern matches holds no bracket and holds a character that is neither a
    bracket nor a capital, so it neither reaches into a token nor lies
    inside one: only the URL pass can rewrite a token. *)
Theorem redact_pii_idempotent :
  (forall text : string,
     is_ascii text = true ->
     is_ascii (redact_pii (Some text)) = true
     /\ (redact_pii (Some (redact_pii (Some text))) = redact_pii (Some text)
         <-> no_residue (redact_pii (Some text)) = true))
  /\ (forall token : string,
        In token tokens ->
        no_residue token = true /\ redact_pii (Some token) = token)
  /\ (forall (pattern : regex) (token : string),
        In (pattern, token) steps_but_url ->
        forall (prev : option ascii) (m rest : string),
          matches pattern prev m rest ->
          has is_bracket m = false /\ has outside_tokens m = true).
Proof.
  split; [|split].
  - intros text Hascii. split; [now apply redact_pii_is_ascii|].
    apply redact_pii_fixed_point.
  - intros token Hin. unfold tokens in Hin. cbn [In] in Hin.
    repeat match goal with
           | H : _ \/ _ |- _ => destruct H as [<-|H]
           | H : False |- _ => destruct H
           end; split; vm_compute; reflexivity.
  - intros pattern token Hin prev m rest Hm.
    unfold steps_but_url, spec_redaction_steps in Hin. cbn [firstn skipn app In] in Hin.
    repeat match goal with
           | H : _ \/ _ |- _ => destruct H as [H|H]
           | H : (_, _) = (_, _) |- _ => injection H as <- <-
           | H : False |- _ => destruct H
           end;
      (split;
       [ apply (matches_avoids is_bracket _ _ _ _ Hm); vm_compute; reflexivity
       | apply (matches_needs outside_tokens _ _ _ _ Hm); vm_compute; reflexivity ]).
Qed.

Lemma redact_pii_idempotent_witness :
  redact_pii (Some "Contact John Doe at john@example.com or 555-123-4567")
  = "Contact John Doe at [EMAIL] or [PHONE]"
  /\ redact_pii (Some (redact_pii
                         (Some "Contact John Doe at john@example.com or 555-123-4567")))
     = redact_pii (Some "Contact John Doe at john@example.com or 555-123-4567").
Proof.
  split; [vm_compute; reflexivity|].
  destruct (proj1 redact_pii_idempotent
              "Contact John Doe at john@example.com or 555-123-4567" eq_refl)
    as [_ [_ Hclean]].
  apply Hclean. vm_compute. reflexivity.
Defined.

(** ** Letter case *)

Lemma for_all_ascii (Q : ascii -> bool) :
  forallb Q all_ascii = true -> forall c, Q c = true.
Proof.
  intros H c. rewrite forallb_forall in H. apply H, in_all_ascii.
Qed.

Lemma lower_char_idempotent (c : ascii) : lower_char (lower_char c) = lower_char c.
Proof.
  revert c.
  assert (H : forall c, Ascii.eqb (lower_char (lower_char c)) (lower_char c) = true).
  { apply for_all_ascii. vm_compute. reflexivity. }
  intros c. apply Ascii.eqb_eq, H.
Qed.

Lemma is_word_lower_char (c : ascii) : is_word (lower_char c) = is_word c.
Proof.
  assert (H : forall c, Bool.eqb (is_word (lower_char c)) (is_word c) = true).
  { apply for_all_ascii. vm_compute. reflexivity. }
  apply Bool.eqb_prop, H.
Qed.

Lemma is_space_lower_char (c : ascii) : is_space (lower_char c) = is_space c.
Proof.
  assert (H : forall c, Bool.eqb (is_space (lower_char c)) (is_space c) = true).
  { apply for_all_ascii. vm_compute. reflexivity. }
  apply Bool.eqb_prop, H.
Qed.

Lemma lower_idempotent (s : string) : lower (lower s) = lower s.
Proof.
  induction s as [|c s IH]; [reflexivity|].
  cbn [lower]. now rewrite lower_char_idempotent, IH.
Qed.

Lemma lower_append (a b : string) : lower (a ++ b) = lower a ++ lower b.
Proof.
  induction a as [|c a IH]; [reflexivity|]. cbn [append lower]. now rewrite IH.
Qed.

Lemma lower_length (s : string) : String.length (lower s) = String.length s.
Proof.
  induction s as [|c s IH]; [reflexivity|]. cbn [lower String.length]. now rewrite IH.
Qed.

Lemma at_boundary_lower (prev : option ascii) (s : string) :
  Re.at_boundary (lower_prev prev) (lower s) = Re.at_boundary prev s.
Proof.
  unfold Re.at_boundary, lower_prev.
  destruct prev as [c|], s as [|d s]; cbn [option_map lower];
    now rewrite ?is_word_lower_char.
Qed.

(** A case-blind pattern matches the lowercased text as it matches the
    text. *)
Lemma rmatch_lower (r : regex) :
  case_blind r = true ->
  forall (prev : option ascii) (s : string) (k k' : Re.cont),
    (forall p s', k' (lower_prev p) (lower s') = option_map lower_result (k p s')) ->
    Re.rmatch r (lower_prev prev) (lower s) k'
    = option_map lower_result (Re.rmatch r prev s k).
Proof.
  induction r as [|p|r1 IH1 r2 IH2|r1 IH1 r2 IH2|r' IH|]; intros Hblind prev s k k' Hk;
    cbn [case_blind] in Hblind; cbn [Re.rmatch].
  - apply Hk.
  - destruct s as [|c s]; [reflexivity|]. cbn [lower].
    pose proof (for_all_ascii _ Hblind c) as Hc. apply Bool.eqb_prop in Hc.
    rewrite Hc. destruct (p c); [|reflexivity]. apply (Hk (Some c) s).
  - apply andb_true_iff in Hblind as [H1 H2].
    apply IH1; [assumption|]. intros p s'. now apply IH2.
  - apply andb_true_iff in Hblind as [H1 H2].
    rewrite (IH1 H1 prev s k k' Hk), (IH2 H2 prev s k k' Hk).
    now destruct (Re.rmatch r1 prev s k).
  - rewrite lower_length.
    generalize (String.length s) as n. intros n. revert prev s.
    induction n as [|n IHn]; intros prev s; [apply Hk|].
    rewrite (IH Hblind prev s
               (fun p' s' =>
                  if Nat.ltb (String.length s') (String.length s)
                  then (fix loop (n : nat) (prev : option ascii) (s : string)
                          {struct n} :=
                          match n with
                          | O => k prev s
                          | S n' =>
                              match Re.rmatch r' prev s
                                      (fun p' s' =>
                                         if Nat.ltb (String.length s')
                                                    (String.length s)
                                         then loop n' p' s' else None) with
                              | Some x => Some x
                              | None => k prev s
                              end
                          end) n p' s'
                  else None)).
    + rewrite Hk. now destruct (Re.rmatch r' prev s _).
    + intros p s'. rewrite !lower_length.
      destruct (Nat.ltb _ _); [apply IHn | reflexivity].
  - rewrite at_boundary_lower. destruct (Re.at_boundary prev s); [apply Hk | reflexivity].
Qed.

Lemma match_at_lower (r : regex) (prev : option ascii) (s : string) :
  case_blind r = true ->
  Re.match_at r (lower_prev prev) (lower s)
  = option_map lower_result (Re.match_at r prev s).
Proof.
  intros Hblind. unfold Re.match_at. apply rmatch_lower; [assumption|].
  reflexivity.
Qed.

Lemma sub_loop_lower (r : regex) (repl : string) (fuel : nat) :
  case_blind r = true -> lower repl = repl ->
  forall (prev : option ascii) (s : string),
    Re.sub_loop r repl fuel (lower_prev prev) (lower s)
    = lower (Re.sub_loop r repl fuel prev s).
Proof.
  intros Hblind Hrepl. induction fuel as [|fuel IH]; intros prev s; [reflexivity|].
  cbn [Re.sub_loop]. rewrite match_at_lower by assumption.
  destruct (Re.match_at r prev s) as [[p' rest]|]; cbn [option_map lower_result fst snd].
  - rewrite !lower_length.
    destruct (Nat.ltb _ _).
    + now rewrite lower_append, Hrepl, IH.
    + destruct s as [|c s]; cbn [lower]; [now rewrite Hrepl|].
      rewrite lower_append, Hrepl. cbn [lower]. now rewrite (IH (Some c)).
  - destruct s as [|c s]; cbn [lower]; [reflexivity|]. now rewrite (IH (Some c)).
Qed.

Lemma sub_lower (r : regex) (repl s : string) :
  case_blind r = true -> lower repl = repl ->
  Re.sub r repl (lower s) = lower (Re.sub r repl s).
Proof.
  intros Hblind Hrepl. unfold Re.sub. rewrite lower_length.
  now apply (sub_loop_lower r repl _ Hblind Hrepl None).
Qed.

Lemma lstrip_lower (s : string) : lstrip (lower s) = lower (lstrip s).
Proof.
  induction s as [|c s IH]; [reflexivity|].
  cbn [lower lstrip]. rewrite is_space_lower_char.
  now destruct (is_space c).
Qed.

Lemma rstrip_lower (s : string) : rstrip (lower s) = lower (rstrip s).
Proof.
  induction s as [|c s IH]; [reflexivity|].
  cbn [lower rstrip]. rewrite IH, is_space_lower_char.
  destruct (rstrip s); [now destruct (is_space c) | reflexivity].
Qed.

Lemma strip_lower (s : string) : strip (lower s) = lower (strip s).
Proof. unfold strip. now rewrite lstrip_lower, rstrip_lower. Qed.

Lemma contains_question_lower (s : string) :
  contains "?" (lower s) = contains "?" s.
Proof.
  assert (Hq : forall c, Bool.eqb (Ascii.eqb "?" (lower_char c)) (Ascii.eqb "?" c) = true).
  { apply for_all_ascii. vm_compute. reflexivity. }
  induction s as [|c s IH]; [reflexivity|].
  cbn [lower contains]. rewrite !prefix_cons, !prefix_empty, IH.
  now rewrite (Bool.eqb_prop _ _ (Hq c)).
Qed.

Lemma extract_keywords_lower (text : string) :
  extract_keywords (lower text) = extract_keywords text.
Proof.
  unfold extract_keywords.
  destruct text as [|c text]; [reflexivity|].
  change (lower (String c text)) with (String (lower_char c) (lower text)).
  cbv zeta. change (String (lower_char c) (lower text)) with (lower (String c text)).
  rewrite sub_lower by (vm_compute; reflexivity).
  rewrite sub_lower by (vm_compute; reflexivity).
  rewrite strip_lower, lower_idempotent.
  unfold found_keywords. cbv zeta. now rewrite contains_question_lower.
Qed.

(** X21: [extract_keywords] is blind to letter case: a text and its
    lowercase form give the same keywords. *)
Theorem extract_keywords_ignores_case :
  forall text : string, extract_keywords (lower text) = extract_keywords text.
Proof. exact extract_keywords_lower. Qed.

Lemma get_or_empty_lower (field : option string) :
  get_or_empty (option_map lower field) = lower (get_or_empty field).
Proof. now destruct field. Qed.

(** X22: the local classification of an e-mail is blind to letter case:
    lowercasing subject, body and sender changes neither the keywords nor
    the answer of the rules. *)
Theorem local_result_ignores_case :
  forall email : email_data,
    local_result_of (lower_email email) = local_result_of email.
Proof.
  intros email.
  unfold local_result_of, full_content_of, subject_of, body_of, sender_of, lower_email.
  cbn [subject body sender]. rewrite !get_or_empty_lower.
  change " " with (lower " ") at 1. rewrite <- !lower_append.
  rewrite extract_keywords_lower.
  unfold classify_locally. now rewrite !lower_idempotent.
Qed.

(** ** [parse_gmail_message] *)

Lemma prefix_char (m c : ascii) (s : string) :
  String.prefix (String m "") (String c s) = Ascii.eqb m c.
Proof. now rewrite prefix_cons, prefix_empty, andb_true_r. Qed.

Lemma has_cons_false (P : ascii -> bool) (c : ascii) (s : string) :
  has P (String c s) = false -> P c = false /\ has P s = false.
Proof. cbn [has]. apply orb_false_iff. Qed.

Lemma contains_char (m : ascii) (pre rest : string) :
  contains (String m "") (pre ++ String m rest) = true.
Proof.
  induction pre as [|c pre IH]; cbn [append contains].
  - now rewrite prefix_char, Ascii.eqb_refl.
  - rewrite IH. now destruct (String.prefix _ _).
Qed.

Lemma before_first_char (m : ascii) (body rest : string) :
  has (Ascii.eqb m) body = false ->
  before_first (String m "") (body ++ rest)
  = body ++ before_first (String m "") rest.
Proof.
  induction body as [|c body IH]; intros Hfree; [reflexivity|].
  apply has_cons_false in Hfree as [Hc Hfree].
  cbn [append before_first]. rewrite prefix_char, Hc. now rewrite IH.
Qed.

Lemma before_first_stop (m : ascii) (rest : string) :
  before_first (String m "") (String m rest) = "".
Proof. cbn [before_first]. now rewrite prefix_char, Ascii.eqb_refl. Qed.

Lemma after_first_char (m : ascii) (pre rest : string) :
  has (Ascii.eqb m) pre = false ->
  after_first (String m "") (pre ++ String m rest) = Some rest.
Proof.
  induction pre as [|c pre IH]; intros Hfree; cbn [append after_first].
  - rewrite prefix_char, Ascii.eqb_refl. reflexivity.
  - apply has_cons_false in Hfree as [Hc Hfree].
    rewrite prefix_char, Hc. now apply IH.
Qed.

Lemma rstrip_append_space (s : string) : rstrip (s ++ " ") = rstrip s.
Proof.
  induction s as [|c s IH]; [reflexivity|].
  cbn [append rstrip]. now rewrite IH.
Qed.

(** X24: from a [From] value of the form [NAME<ADDRESS>REST], with no [<]
    in the name and no angle bracket in the address, the parser takes the
    name without the white space and the double quotes around it and the
    address without the white space around it; what follows the closing
    bracket is dropped. *)
Theorem bracketed_sender_is_split :
  forall name address rest : string,
    has (Ascii.eqb "<") name = false ->
    has (Ascii.eqb "<") address = false ->
    has (Ascii.eqb ">") address = false ->
    parse_sender (name ++ "<" ++ address ++ ">" ++ rest)
    = (strip_quotes (strip name), strip address).
Proof.
  intros name address rest Hname Haddr Haddr'.
  change (name ++ "<" ++ address ++ ">" ++ rest)
    with (name ++ String "<" (address ++ String ">" rest)).
  unfold parse_sender.
  rewrite (contains_char "<" name).
  assert (Hgt : contains ">" (name ++ String "<" (address ++ String ">" rest)) = true).
  { change (name ++ String "<" (address ++ String ">" rest))
      with (name ++ ("<" ++ address) ++ String ">" rest).
    rewrite <- append_assoc. apply contains_char. }
  rewrite Hgt. cbn [andb].
  rewrite (before_first_char "<" name) by assumption.
  rewrite before_first_stop, append_empty_r.
  unfold split_second. rewrite after_first_char by assumption.
  cbn [option_map].
  rewrite (before_first_char "<" address) by assumption.
  rewrite (before_first_char ">" address) by assumption.
  cbn [before_first]. rewrite prefix_char.
  replace (Ascii.eqb "<" ">") with false by reflexivity.
  rewrite before_first_stop, append_empty_r. reflexivity.
Qed.

Lemma bracketed_sender_is_split_witness :
  parse_sender ("Ann Lee " ++ "<" ++ "ann@example.com" ++ ">" ++ "")
  = (strip_quotes (strip "Ann Lee "), strip "ann@example.com").
Proof.
  apply bracketed_sender_is_split; reflexivity.
Defined.

Lemma last_default {A : Type} (x : A) (l : list A) (d d' : A) :
  last (x :: l) d = last (x :: l) d'.
Proof.
  revert x. induction l as [|y l IH]; intros x; [reflexivity|].
  change (last (x :: y :: l) d) with (last (y :: l) d).
  change (last (x :: y :: l) d') with (last (y :: l) d'). apply IH.
Qed.

Lemma last_append {A : Type} (l1 l2 : list A) (d : A) :
  last (l1 ++ l2) d = last l2 (last l1 d).
Proof.
  destruct l2 as [|y l2]; [now rewrite app_nil_r|].
  induction l1 as [|x l1 IH]; [reflexivity|].
  rewrite (last_default y l2 _ d).
  change ((x :: l1) ++ y :: l2)%list with (x :: (l1 ++ y :: l2))%list.
  destruct (l1 ++ y :: l2)%list as [|z l] eqn:E.
  - destruct l1; discriminate E.
  - change (last (x :: z :: l) d) with (last (z :: l) d).
    rewrite IH. apply last_default.
Qed.

Section GmailBodies.

(** A decoder that accepts every data. *)
Variable dec : string -> string.

Lemma extract_body_last (part : payload) :
  forall plain html : string,
    extract_body (fun data => Ok (dec data)) part (plain, html)
    = Ok (last (map dec (datas_of "text/plain" part)) plain,
          last (map dec (datas_of "text/html" part)) html).
Proof.
  revert part. fix IH 1. intros [headers mime_type body_data parts] plain html.
  cbn [extract_body datas_of].
  rewrite !map_app, !last_append.
  set (own :=
         match truthy body_data with
         | Some data =>
             if match mime_type with
                | Some m => String.eqb m "text/plain"
                | None => false
                end
             then obind (Ok (dec data)) (fun text => Ok (text, snd (plain, html)))
             else if match mime_type with
                     | Some m => String.eqb m "text/html"
                     | None => false
                     end
             then obind (Ok (dec data)) (fun text => Ok (fst (plain, html), text))
             else Ok (plain, html)
         | None => Ok (plain, html)
         end).
  assert (Hown :
    own = Ok (last (map dec
                      match truthy body_data with
                      | Some data =>
                          if has_mime mime_type "text/plain" then [data]
                          else if has_mime mime_type "text/html" then [] else []
                      | None => []
                      end) plain,
              last (map dec
                      match truthy body_data with
                      | Some data =>
                          if has_mime mime_type "text/plain" then []
                          else if has_mime mime_type "text/html" then [data] else []
                      | None => []
                      end) html)).
  { subst own. unfold has_mime.
    destruct (truthy body_data) as [data|]; [|reflexivity].
    destruct mime_type as [m|]; [|reflexivity].
    destruct (String.eqb m "text/plain"); [reflexivity|].
    destruct (String.eqb m "text/html"); reflexivity. }
  cbn [String.eqb Ascii.eqb Bool.eqb] in *.
  rewrite Hown. cbn [obind]. clear own Hown.
  generalize (last (map dec
                      match truthy body_data with
                      | Some data =>
                          if has_mime mime_type "text/plain" then [data]
                          else if has_mime mime_type "text/html" then [] else []
                      | None => []
                      end) plain) as p0.
  generalize (last (map dec
                      match truthy body_data with
                      | Some data =>
                          if has_mime mime_type "text/plain" then []
                          else if has_mime mime_type "text/html" then [data] else []
                      | None => []
                      end) html) as h0.
  induction parts as [|part parts IHparts]; intros h0 p0; [reflexivity|].
  cbn [flat_map]. rewrite !map_app, !last_append.
  rewrite (IH part p0 h0). cbn [obind]. apply IHparts.
Qed.

(** X26: when every data decodes, the plain body of the parsed message is
    the text of the last [text/plain] part that holds data, in document
    order, and the HTML body that of the last such [text/html] part; each
    is empty when there is no such part. *)
Theorem last_part_wins :
  forall part : payload,
    exists parsed : parsed_message,
      parse_gmail_message (fun data => Ok (dec data)) (Some part) = Ok parsed
      /\ body_plain parsed = last (map dec (datas_of "text/plain" part)) ""
      /\ body_html parsed = last (map dec (datas_of "text/html" part)) "".
Proof.
  intros part. unfold parse_gmail_message.
  destruct part as [headers mime_type body_data parts] eqn:Epart.
  cbv zeta. destruct (parse_sender _) as [name address].
  rewrite <- Epart, extract_body_last. cbn [obind fst snd].
  eexists. repeat split.
Qed.

End GmailBodies.

Lemma has_lstrip_with (P p : ascii -> bool) (s : string) :
  has P s = false -> has P (lstrip_with p s) = false.
Proof.
  induction s as [|c s IH]; intros H; [reflexivity|].
  cbn [lstrip_with]. destruct (p c); [|assumption].
  apply has_cons_false in H as [_ H]. now apply IH.
Qed.

Lemma has_rstrip_with (P p : ascii -> bool) (s : string) :
  has P s = false -> has P (rstrip_with p s) = false.
Proof.
  induction s as [|c s IH]; intros H; [reflexivity|].
  apply has_cons_false in H as [Hc H]. specialize (IH H).
  cbn [rstrip_with]. destruct (rstrip_with p s) as [|d t].
  - destruct (p c); [reflexivity|]. cbn [has]. now rewrite Hc.
  - cbn [has] in *. now rewrite Hc.
Qed.

Lemma lstrip_is_lstrip_with (s : string) : lstrip s = lstrip_with is_space s.
Proof. induction s as [|c s IH]; [reflexivity|]. cbn. now rewrite IH. Qed.

Lemma rstrip_is_rstrip_with (s : string) : rstrip s = rstrip_with is_space s.
Proof. induction s as [|c s IH]; [reflexivity|]. cbn. now rewrite IH. Qed.

Lemma has_strip (P : ascii -> bool) (s : string) :
  has P s = false -> has P (strip s) = false.
Proof.
  intros H. unfold strip. rewrite rstrip_is_rstrip_with, lstrip_is_lstrip_with.
  now apply has_rstrip_with, has_lstrip_with.
Qed.

Lemma has_strip_quotes (P : ascii -> bool) (s : string) :
  has P s = false -> has P (strip_quotes s) = false.
Proof.
  intros H. unfold strip_quotes. now apply has_rstrip_with, has_lstrip_with.
Qed.

Lemma has_before_first (P : ascii -> bool) (sep s : string) :
  has P s = false -> has P (before_first sep s) = false.
Proof.
  induction s as [|c s IH]; intros H; cbn [before_first].
  - now destruct (String.prefix sep "").
  - destruct (String.prefix sep (String c s)); [reflexivity|].
    apply has_cons_false in H as [Hc H]. cbn [has]. now rewrite Hc, IH.
Qed.

Lemma before_first_char_free (m : ascii) (s : string) :
  has (Ascii.eqb m) (before_first (String m "") s) = false.
Proof.
  induction s as [|c s IH]; [reflexivity|].
  cbn [before_first]. rewrite prefix_char.
  destruct (Ascii.eqb m c) eqn:Hc; [reflexivity|].
  cbn [has]. now rewrite Hc, IH.
Qed.

(** X25: when the [From] value holds both angle brackets, whatever their
    order and number, the parsed address holds none and the parsed name
    holds no [<]. *)
Theorem parsed_sender_has_no_brackets :
  forall sender : string,
    contains "<" sender = true ->
    contains ">" sender = true ->
    has (Ascii.eqb "<") (fst (parse_sender sender)) = false
    /\ has (Ascii.eqb "<") (snd (parse_sender sender)) = false
    /\ has (Ascii.eqb ">") (snd (parse_sender sender)) = false.
Proof.
  intros sender Hlt Hgt. unfold parse_sender. rewrite Hlt, Hgt. cbn [andb fst snd].
  split; [|split].
  - apply has_strip_quotes, has_strip, before_first_char_free.
  - unfold split_second. destruct (after_first "<" sender) as [inner|] eqn:Hafter.
    + cbn [option_map]. apply has_strip, has_before_first, before_first_char_free.
    + exfalso. clear Hgt. induction sender as [|c sender IH]; [discriminate Hlt|].
      cbn [contains] in Hlt. cbn [after_first] in Hafter.
      destruct (String.prefix "<" (String c sender)); [discriminate Hafter|].
      now apply IH.
  - unfold split_second. destruct (after_first "<" sender) as [inner|] eqn:Hafter.
    + cbn [option_map]. apply has_strip, before_first_char_free.
    + exfalso. clear Hgt. induction sender as [|c sender IH]; [discriminate Hlt|].
      cbn [contains] in Hlt. cbn [after_first] in Hafter.
      destruct (String.prefix "<" (String c sender)); [discriminate Hafter|].
      now apply IH.
Qed.

Lemma parsed_sender_has_no_brackets_witness :
  has (Ascii.eqb "<") (fst (parse_sender "a > b <c> <d>")) = false
  /\ has (Ascii.eqb "<") (snd (parse_sender "a > b <c> <d>")) = false
  /\ has (Ascii.eqb ">") (snd (parse_sender "a > b <c> <d>")) = false.
Proof.
  apply parsed_sender_has_no_brackets; reflexivity.
Defined.
